(** * Bunch-level orchestration of the cyclic particle accelerator

    A shallow embedding of [Project/Bunch.py] (the abstract [Bunch] class)
    and of the time loop of [Project/RecordSynchrocyclotron.py].

    Python floats and numpy's float64 are IEEE 754 binary64 numbers; they
    are embedded as Rocq's primitive floats, so that every definition below
    can be run on concrete inputs.  Particle objects are mutable and are
    reached through references: they live in a store ([heap]) and a bunch
    holds a list of references into it, which is what makes [copy.deepcopy]
    and the sharing done by [__add__] visible. *)

From Stdlib Require Import ZArith List String Ascii Lia Bool.
From Stdlib Require Import PrimFloat Floats DecimalString.
From stdpp Require Import base option list.

Set Warnings "-inexact-float".

(** ** Python values and control effects *)

(** The exceptions that the modelled code can raise. *)
Inductive exn : Type :=
  | TypeError (msg : string)
  | ValueError (msg : string)
  | AttributeError (attr : string)
  | ZeroDivisionError
  | StepError (msg : string)
  | ConstructionError (msg : string).

(** Outcome of running a piece of Python: a value, a raised exception, or
    (for [while] loops, which are run with a bound on the number of
    iterations) the bound being exhausted. *)
Inductive outcome (A : Type) : Type :=
  | Ret (a : A)
  | Raise (e : exn)
  | OutOfFuel.

Arguments Ret {A} a.
Arguments Raise {A} e.
Arguments OutOfFuel {A}.

#[global] Instance outcome_ret : MRet outcome := fun A a => Ret a.

#[global] Instance outcome_bind : MBind outcome := fun A B k m =>
  match m with
  | Ret a => k a
  | Raise e => Raise e
  | OutOfFuel => OutOfFuel
  end.

(** ** Floating-point helpers *)

Module F.

Definition zero : float := 0%float.
Definition one : float := 1%float.

(** [const.c] of scipy: the speed of light in m/s. *)
Definition c : float := 299792458%float.

(** [float(n)] for a list length. *)
Definition of_nat (n : nat) : float := PrimFloat.of_uint63 (Uint63.of_Z (Z.of_nat n)).

(** Python's [a <= x <= b]: both comparisons must hold. *)
Definition between (a x b : float) : bool := PrimFloat.leb a x && PrimFloat.leb x b.

(** [x > 0]. *)
Definition positive (x : float) : bool := PrimFloat.ltb zero x.

(** [math.sqrt]: raises [ValueError] on a negative argument, returns NaN
    on NaN. *)
Definition math_sqrt (x : float) : outcome float :=
  if PrimFloat.ltb x zero then Raise (ValueError "math domain error")
  else Ret (PrimFloat.sqrt x).

(** Python's float division [a / b]: raises on a zero divisor. *)
Definition py_div (a b : float) : outcome float :=
  if PrimFloat.eqb b zero then Raise ZeroDivisionError
  else Ret (PrimFloat.div a b).

End F.

(** ** Data model *)

(** A numpy vector of three float64. *)
Definition vec3 : Type := float * float * float.

Definition vx (v : vec3) : float := fst (fst v).
Definition vy (v : vec3) : float := snd (fst v).
Definition vz (v : vec3) : float := snd v.

Definition vadd (a b : vec3) : vec3 :=
  (PrimFloat.add (vx a) (vx b), PrimFloat.add (vy a) (vy b), PrimFloat.add (vz a) (vz b)).

Definition vdiv (a : vec3) (k : float) : vec3 :=
  (PrimFloat.div (vx a) k, PrimFloat.div (vy a) k, PrimFloat.div (vz a) k).

(** A charged particle object.  The class lives outside [Bunch.py]; the
    bunch reads [name], [position] and [velocity], and the field writes the
    acceleration. *)
Record Particle : Type := mkParticle {
  name : string;
  position : vec3;
  velocity : vec3;
  acceleration : vec3
}.

Definition set_name (s : string) (p : Particle) : Particle :=
  mkParticle s (position p) (velocity p) (acceleration p).

#[global] Instance Particle_inhabited : Inhabited Particle :=
  populate (mkParticle EmptyString (F.zero, F.zero, F.zero)
              (F.zero, F.zero, F.zero) (F.zero, F.zero, F.zero)).

(** References to particle objects and the store they live in.  A new
    object is allocated at the end of the store. *)
Abbreviation loc := nat (only parsing).
Abbreviation heap := (list Particle) (only parsing).

Definition deref (h : heap) (l : loc) : Particle := h !!! l.
Definition store (l : loc) (p : Particle) (h : heap) : heap := <[l := p]> h.
Definition alloc (p : Particle) (h : heap) : heap * loc := (h ++ [p], length h).

(** The part of [EMField] that the bunch reads. *)
Record EMField : Type := mkEMField {
  electricLowerBound : float;
  electricUpperBound : float
}.

(** A [Bunch] object.  [mro] is the method resolution order of its class,
    most specific class first (for a proton bunch: ProtonBunch, Bunch,
    ABC, object).  [average_kinetic_energy] is [None] once the attribute
    has been deleted.  [bunchName] is set by the concrete species. *)
Record Bunch : Type := mkBunch {
  mro : list string;
  average_kinetic_energy : option float;
  bunch_number : Z;
  positionSigma : float;
  bunch : list loc;
  bunchName : string
}.

Definition set_bunch (ls : list loc) (b : Bunch) : Bunch :=
  mkBunch (mro b) (average_kinetic_energy b) (bunch_number b) (positionSigma b) ls (bunchName b).
Definition set_bunch_number (n : Z) (b : Bunch) : Bunch :=
  mkBunch (mro b) (average_kinetic_energy b) n (positionSigma b) (bunch b) (bunchName b).
Definition set_bunchName (s : string) (b : Bunch) : Bunch :=
  mkBunch (mro b) (average_kinetic_energy b) (bunch_number b) (positionSigma b) (bunch b) s.
Definition del_average_kinetic_energy (b : Bunch) : Bunch :=
  mkBunch (mro b) None (bunch_number b) (positionSigma b) (bunch b) (bunchName b).

(** The particle objects of a bunch, read through the store, in order. *)
Definition members (h : heap) (b : Bunch) : list Particle := map (deref h) (bunch b).

(** ** [Bunch.adaptiveStep] *)

Definition paddedLower (field : EMField) : float :=
  PrimFloat.sub (electricLowerBound field)
                (PrimFloat.mul 0.1%float (PrimFloat.abs (electricLowerBound field))).

Definition paddedUpper (field : EMField) : float :=
  PrimFloat.add (electricUpperBound field)
                (PrimFloat.mul 0.1%float (PrimFloat.abs (electricUpperBound field))).

(** [lowerBound <= i.position[0] <= upperBound] for one member. *)
Definition electric_influence (field : EMField) (p : Particle) : bool :=
  F.between (paddedLower field) (vx (position p)) (paddedUpper field).

Definition adaptiveStep (h : heap) (self : Bunch) (deltaT : float) (field : EMField) : float :=
  if existsb (electric_influence field) (members h self)
  then PrimFloat.mul deltaT 0.01%float
  else deltaT.

(** ** [copy.deepcopy] of a bunch *)

(** The memo table of [copy.deepcopy]: an object reached twice is copied
    once and the copy is reused. *)
Fixpoint memo_get (l : loc) (memo : list (loc * loc)) : option loc :=
  match memo with
  | [] => None
  | (k, v) :: rest => if Nat.eqb k l then Some v else memo_get l rest
  end.

Fixpoint deepcopy_members (ls : list loc) (memo : list (loc * loc)) (h : heap)
  : list loc * list (loc * loc) * heap :=
  match ls with
  | [] => ([], memo, h)
  | l :: rest =>
      match memo_get l memo with
      | Some l' =>
          let '(r, memo', h') := deepcopy_members rest memo h in
          (l' :: r, memo', h')
      | None =>
          let '(h1, l') := alloc (deref h l) h in
          let '(r, memo', h') := deepcopy_members rest ((l, l') :: memo) h1 in
          (l' :: r, memo', h')
      end
  end.

Definition deepcopy (self : Bunch) (h : heap) : Bunch * heap :=
  let '(ls, _, h') := deepcopy_members (bunch self) [] h in
  (set_bunch ls self, h').

(** ** [Bunch.__add__] *)

(** [str(n)] for a non-negative integer. *)
Definition str (n : nat) : string := NilEmpty.string_of_uint (Nat.to_uint n).

(** [s[:-1]]: the string without its last character. *)
Fixpoint drop_last (s : string) : string :=
  match s with
  | EmptyString => EmptyString
  | String _ EmptyString => EmptyString
  | String a rest => String a (drop_last rest)
  end.

(** [list.index] on a list of particle objects: the first position that
    holds the object.  Particles are compared by identity. *)
Fixpoint list_index (l : loc) (ls : list loc) : option nat :=
  match ls with
  | [] => None
  | x :: rest => if Nat.eqb x l then Some 0 else S <$> list_index l rest
  end.

(** [isinstance(other, cls)]: [cls] occurs in the method resolution order
    of [other]'s class. *)
Definition isinstance (other : Bunch) (cls : string) : bool :=
  existsb (String.eqb cls) (mro other).

(** [self.__class__]. *)
Definition class_of (self : Bunch) : string := hd "object"%string (mro self).

(** The renaming loop [for particle in new_bunch.bunch: ...]. *)
Fixpoint rename_members (all todo : list loc) (h : heap) : outcome heap :=
  match todo with
  | [] => Ret h
  | l :: rest =>
      match list_index l all with
      | None => Raise (ValueError "is not in list")
      | Some i =>
          let particle := deref h l in
          let new_name := (drop_last (name particle) ++ str (i + 1))%string in
          rename_members all rest (store l (set_name new_name particle) h)
      end
  end.

Definition __add__ (self other : Bunch) (h : heap) : outcome (Bunch * heap) :=
  if negb (isinstance other (class_of self))
  then Raise (TypeError "Cannot add bunches of different types together.")
  else
    let '(new_bunch, h1) := deepcopy self h in
    let new_bunch := set_bunch (bunch new_bunch ++ bunch other) new_bunch in
    let new_bunch := set_bunch_number (bunch_number new_bunch + bunch_number other) new_bunch in
    let new_bunch := set_bunchName ("combined " ++ bunchName other)%string new_bunch in
    match average_kinetic_energy new_bunch with
    | None => Raise (AttributeError "average_kinetic_energy")
    | Some _ =>
        let new_bunch := del_average_kinetic_energy new_bunch in
        h2 ← rename_members (bunch new_bunch) (bunch new_bunch) h1;
        Ret (new_bunch, h2)
    end.

(** ** Random sampling

    [np.random.normal] draws from numpy's global generator.  The generator
    is an oracle [rng] giving the k-th standard normal deviate, threaded
    with the number [k] of deviates consumed so far; a draw with mean [loc]
    and deviation [scale] is [loc + scale * z]. *)

Definition normal_draw (rng : nat -> float) (loc scale : float) (k : nat) : float :=
  PrimFloat.add loc (PrimFloat.mul scale (rng k)).

(** [np.random.normal(loc, scale)]: one draw; a negative scale is refused. *)
Definition np_random_normal (rng : nat -> float) (loc scale : float) (k : nat)
  : outcome (float * nat) :=
  if PrimFloat.ltb scale F.zero then Raise (ValueError "scale < 0")
  else Ret (normal_draw rng loc scale k, S k).

Fixpoint draws (rng : nat -> float) (loc scale : float) (n k : nat) : list float :=
  match n with
  | O => []
  | S n' => normal_draw rng loc scale k :: draws rng loc scale n' (S k)
  end.

(** [np.random.normal(loc, scale, n)]: an array of [n] draws. *)
Definition np_random_normal_array (rng : nat -> float) (loc scale : float) (n : Z) (k : nat)
  : outcome (list float * nat) :=
  if PrimFloat.ltb scale F.zero then Raise (ValueError "scale < 0")
  else if (n <? 0)%Z then Raise (ValueError "negative dimensions are not allowed")
  else Ret (draws rng loc scale (Z.to_nat n) k, k + Z.to_nat n).

Fixpoint draw_rows (rng : nat -> float) (loc scale : float) (n k : nat) : list vec3 :=
  match n with
  | O => []
  | S n' =>
      (normal_draw rng loc scale k, normal_draw rng loc scale (k + 1),
       normal_draw rng loc scale (k + 2))
      :: draw_rows rng loc scale n' (k + 3)
  end.

(** [np.random.normal(loc, scale, (n, 3))]: [n] rows, filled row by row. *)
Definition np_random_normal_rows (rng : nat -> float) (loc scale : float) (n : Z) (k : nat)
  : outcome (list vec3 * nat) :=
  if PrimFloat.ltb scale F.zero then Raise (ValueError "scale < 0")
  else if (n <? 0)%Z then Raise (ValueError "negative dimensions are not allowed")
  else Ret (draw_rows rng loc scale (Z.to_nat n) k, k + 3 * Z.to_nat n).

(** ** [Bunch.assignPositions] *)

Definition assignPositions (self : Bunch) (rng : nat -> float) (k : nat)
  : outcome (list vec3 * nat) :=
  let mu := 0%float in
  let sigma := positionSigma self in
  '(positions, k') ← np_random_normal_rows rng mu sigma (bunch_number self) k;
  Ret (map (fun i : vec3 => (vx i, vy i, 0%float)) positions, k').

(** ** [Bunch.distributeEnergies] *)

(** [list.index] on floats, compared with [==]. *)
Fixpoint float_index (x : float) (l : list float) : option nat :=
  match l with
  | [] => None
  | y :: rest => if PrimFloat.eqb y x then Some 0 else S <$> float_index x rest
  end.

(** One run of [for energy in energies: ...].  The array is read at the
    time each position is visited; a non-positive value is redrawn at the
    first position that holds an equal value. *)
Fixpoint resample_pass (rng : nat -> float) (mu sigma : float) (visit : list nat)
    (energies : list float) (k : nat) : outcome (list float * nat) :=
  match visit with
  | [] => Ret (energies, k)
  | i :: rest =>
      let energy := nth i energies F.zero in
      if PrimFloat.leb energy F.zero then
        '(fresh, k') ← np_random_normal rng mu sigma k;
        match float_index energy energies with
        | None => Raise (ValueError "is not in list")
        | Some j => resample_pass rng mu sigma rest (<[j := fresh]> energies) k'
        end
      else resample_pass rng mu sigma rest energies k
  end.

(** The loop [while all([i>0 for i in energies]) is not True]. *)
Fixpoint resample_loop (fuel : nat) (rng : nat -> float) (mu sigma : float)
    (energies : list float) (k : nat) : outcome (list float * nat) :=
  match fuel with
  | O => OutOfFuel
  | S fuel' =>
      if forallb F.positive energies then Ret (energies, k)
      else
        '(energies', k') ← resample_pass rng mu sigma (seq 0 (length energies)) energies k;
        resample_loop fuel' rng mu sigma energies' k'
  end.

Definition distributeEnergies (self : Bunch) (rng : nat -> float) (k : nat) (fuel : nat)
  : outcome (list float * nat) :=
  match average_kinetic_energy self with
  | None => Raise (AttributeError "average_kinetic_energy")
  | Some mu =>
      let sigma := PrimFloat.mul 0.0001%float mu in
      '(energies, k') ← np_random_normal_array rng mu sigma (bunch_number self) k;
      resample_loop fuel rng mu sigma energies k'
  end.

(** ** [Bunch.__init__]

    The constructor stores its arguments and calls the abstract
    [createBunch], which each concrete species implements. *)

Record Species : Type := mkSpecies {
  species_mro : list string;
  species_bunchName : string;
  createBunch : Bunch -> (nat -> float) -> nat -> nat -> heap -> outcome (list loc * nat * heap)
}.

Definition __init__ (sp : Species) (AverageKinetic : float) (particleNumber : Z)
    (positionSigma : float) (rng : nat -> float) (k fuel : nat) (h : heap)
  : outcome (Bunch * nat * heap) :=
  let self := mkBunch (species_mro sp) (Some AverageKinetic) particleNumber positionSigma []
                      (species_bunchName sp) in
  '(ls, k', h') ← createBunch sp self rng k fuel h;
  Ret (set_bunch ls self, k', h').

(** Modelled from the spec: the materialization of the particle objects
    of a concrete species, whose class is not among the modelled files.
    One object is allocated per position and velocity, named by the
    species' prefix followed by its index from 1. *)
Fixpoint materialize (prefix : string) (i : nat) (positions velocities : list vec3) (h : heap)
  : list loc * heap :=
  match positions, velocities with
  | p :: positions', v :: velocities' =>
      let '(h1, l) :=
        alloc (mkParticle (prefix ++ str (i + 1))%string p v (F.zero, F.zero, F.zero)) h in
      let '(ls, h2) := materialize prefix (S i) positions' velocities' h1 in
      (l :: ls, h2)
  | _, _ => ([], h)
  end.

(** Modelled from the spec: the [createBunch] of a concrete species, whose
    class is not among the modelled files.  The construction contract takes
    an average kinetic energy above 0 eV, and a non-positive energy mean is
    a construction error.  Construction must then, in order, sample
    positions, sample energies, derive the velocity of each particle from
    its energy and materialize the particle objects.  The velocity of an
    energy and the prefix of the display names are the species' own. *)
Definition spec_createBunch (prefix : string) (velocity_of : float -> vec3)
    (self : Bunch) (rng : nat -> float) (k fuel : nat) (h : heap)
  : outcome (list loc * nat * heap) :=
  match average_kinetic_energy self with
  | None => Raise (AttributeError "average_kinetic_energy")
  | Some mean =>
      if PrimFloat.leb mean F.zero
      then Raise (ConstructionError "non-positive energy mean")
      else
        '(positions, k1) ← assignPositions self rng k;
        '(energies, k2) ← distributeEnergies self rng k1 fuel;
        let velocities := map velocity_of energies in
        let '(ls, h') := materialize prefix 0 positions velocities h in
        Ret (ls, k2, h')
  end.

(** ** [Bunch.averageVelocity] and [Bunch.gamma] *)

(** The arrays that the statistics return: a vector of three components,
    or an array of no dimension holding one number. *)
Inductive ndarray : Type :=
  | Array0 (x : float)
  | Array3 (v : vec3).

(** [np.mean(rows, axis=0)]: the rows are added up from the first one and
    the sum is divided by their number; an empty list has no rows to take
    a width from, and its mean is a NaN of no dimension. *)
Definition np_mean_axis0 (rows : list vec3) : ndarray :=
  match rows with
  | [] => Array0 nan
  | v :: rest => Array3 (vdiv (fold_left vadd rest v) (F.of_nat (length rows)))
  end.

Definition averageVelocity (h : heap) (self : Bunch) : ndarray :=
  np_mean_axis0 (map velocity (members h self)).

(** The Euclidean norm of three components. *)
Definition norm3 (v : vec3) : float :=
  PrimFloat.sqrt (PrimFloat.add (PrimFloat.add (PrimFloat.mul (vx v) (vx v))
                                               (PrimFloat.mul (vy v) (vy v)))
                                (PrimFloat.mul (vz v) (vz v))).

(** [np.linalg.norm]: the square root of the sum of the squares of the
    entries. *)
Definition np_linalg_norm (a : ndarray) : float :=
  match a with
  | Array0 x => PrimFloat.sqrt (PrimFloat.mul x x)
  | Array3 v => norm3 v
  end.

(** The argument of the square root in [gamma]. *)
Definition radicand (speed : float) : float :=
  PrimFloat.sub 1%float (PrimFloat.div (PrimFloat.mul speed speed) (PrimFloat.mul F.c F.c)).

Definition gamma (h : heap) (self : Bunch) : outcome float :=
  let speed := np_linalg_norm (averageVelocity h self) in
  root ← F.math_sqrt (radicand speed);
  F.py_div 1%float root.

(** ** [Bunch.update]

    The four single-step integrators are methods of the particle class,
    which lives outside [Bunch.py]: each one reads and writes the particle
    it is called on, and may raise.  A step gives the state it leaves in
    the particle, together with the exception when it raises, since it may
    have written into the particle before raising. *)

Class ParticleOps : Type := {
  euler : float -> Particle -> exn * Particle + Particle;
  eulerCromer : float -> Particle -> exn * Particle + Particle;
  velocityVerlet : float -> EMField -> float -> Particle -> exn * Particle + Particle;
  RungeKutta4 : float -> EMField -> float -> Particle -> exn * Particle + Particle
}.

(** [for particle in self.bunch: particle.step(...)]: the members are
    stepped in order, in place; an exception stops the loop and leaves the
    store as it is at that point, with what the failing step wrote. *)
Fixpoint for_particles (step : Particle -> exn * Particle + Particle) (ls : list loc) (h : heap)
  : heap * option exn :=
  match ls with
  | [] => (h, None)
  | l :: rest =>
      match step (deref h l) with
      | inl (e, p) => (store l p h, Some e)
      | inr p => for_particles step rest (store l p h)
      end
  end.

Definition invalid_set_method : string :=
  "Invalid set_method parameter, defaulting to fourth order Runge-Kutta".

(** The result of [update]: the warnings logged, the store afterwards and
    the exception raised, if any. *)
Record Updated : Type := mkUpdated {
  warnings : list string;
  after : heap;
  raised : option exn
}.

Definition updated (w : list string) (r : heap * option exn) : Updated :=
  mkUpdated w (fst r) (snd r).

Definition update `{ParticleOps} (self : Bunch) (deltaT : float) (field : EMField)
    (time : float) (set_method : Z) (h : heap) : Updated :=
  if (set_method =? 0)%Z then
    updated [] (for_particles (euler deltaT) (bunch self) h)
  else if (set_method =? 1)%Z then
    updated [] (for_particles (eulerCromer deltaT) (bunch self) h)
  else if (set_method =? 2)%Z then
    updated [] (for_particles (velocityVerlet deltaT field time) (bunch self) h)
  else if (set_method =? 3)%Z then
    updated [] (for_particles (RungeKutta4 deltaT field time) (bunch self) h)
  else
    updated [invalid_set_method]
            (for_particles (RungeKutta4 deltaT field time) (bunch self) h).

(** ** The simulation loop of [RecordSynchrocyclotron.py] *)

(** [EMField.getAcceleration(particles, time, dt)]: defined outside the
    modelled files; it reads the particles it is given and writes new
    states into them. *)
Class FieldOps : Type := {
  getAcceleration : EMField -> list Particle -> float -> float -> exn + list Particle
}.

(** Writes the states [ps] into the objects [ls], in order. *)
Fixpoint write_all (ls : list loc) (ps : list Particle) (h : heap) : heap :=
  match ls, ps with
  | l :: ls', p :: ps' => write_all ls' ps' (store l p h)
  | _, _ => h
  end.

(** The variables of the script that change while it runs. *)
Record Sim : Type := mkSim {
  store_of : heap;
  time_of : float;
  timeSeries : list float;
  Data : list Bunch;
  logged : list string
}.

Definition method : Z := 2.
Definition deltaT0 : float := 1e-11%float.
(** [2.38*10**(-8)*100], evaluated from the left as Python does. *)
Definition duration : float :=
  PrimFloat.mul (PrimFloat.mul 2.38%float 1e-8%float) 100%float.

(** The state before the loop: [copy.deepcopy(protons)] is the first
    entry of [Data]. *)
Definition initial (protons : Bunch) (h : heap) : Sim :=
  let '(inital_bunch, h') := deepcopy protons h in
  mkSim h' 0%float [0%float] [inital_bunch] [].

(** One run of the loop body. *)
Definition loop_body `{ParticleOps} `{FieldOps} (protons : Bunch) (field : EMField) (s : Sim)
  : outcome Sim :=
  let dt := adaptiveStep (store_of s) protons deltaT0 field in
  let time := PrimFloat.add (time_of s) dt in
  let timeSeries' := timeSeries s ++ [time] in
  match getAcceleration field (members (store_of s) protons) time dt with
  | inl e => Raise e
  | inr ps =>
      let h1 := write_all (bunch protons) ps (store_of s) in
      let u := update protons dt field time method h1 in
      match raised u with
      | Some e => Raise e
      | None =>
          let '(temp_bunch, h2) := deepcopy protons (after u) in
          Ret (mkSim h2 time timeSeries' (Data s ++ [temp_bunch]) (logged s ++ warnings u))
      end
  end.

(** [n] tests of the loop condition [time <= duration], each followed by
    the body when it holds. *)
Fixpoint iterations `{ParticleOps} `{FieldOps} (n : nat) (protons : Bunch) (field : EMField)
    (s : Sim) : outcome Sim :=
  match n with
  | O => Ret s
  | S n' =>
      if PrimFloat.leb (time_of s) duration then
        s' ← loop_body protons field s;
        iterations n' protons field s'
      else Ret s
  end.

(** The whole loop, with a bound on the number of iterations. *)
Fixpoint simulation `{ParticleOps} `{FieldOps} (fuel : nat) (protons : Bunch) (field : EMField)
    (s : Sim) : outcome Sim :=
  match fuel with
  | O => OutOfFuel
  | S fuel' =>
      if PrimFloat.leb (time_of s) duration then
        s' ← loop_body protons field s;
        simulation fuel' protons field s'
      else Ret s
  end.

(** ** [Bunch.averagePosition] *)

Definition averagePosition (h : heap) (self : Bunch) : ndarray :=
  np_mean_axis0 (map position (members h self)).

(** ** [Bunch.KineticEnergy]

    The kinetic energy of one particle is a method of the particle class.
    [statistics.mean] and the builtin [sum] are Python's; what they return
    on data is taken as given, what they do without data is written out:
    [mean] raises [StatisticsError], a kind of [ValueError], and [sum]
    returns [0]. *)

Class ParticleEnergy : Type := {
  particle_KineticEnergy : Particle -> float
}.

Class PythonNumerics : Type := {
  mean_of : list float -> float;
  sum_of : list float -> float
}.

(** [const.physical_constants['electron volt'][0]]: one eV in joules. *)
Definition conversion : float := 1.602176634e-19%float.

Definition statistics_mean `{PythonNumerics} (data : list float) : outcome float :=
  match data with
  | [] => Raise (ValueError "mean requires at least one data point")
  | _ => Ret (mean_of data)
  end.

Definition builtin_sum `{PythonNumerics} (data : list float) : float :=
  match data with
  | [] => 0%float
  | _ => sum_of data
  end.

Definition KineticEnergy `{ParticleEnergy} `{PythonNumerics} (h : heap) (self : Bunch)
    (total : bool) : outcome float :=
  let energies := map particle_KineticEnergy (members h self) in
  if negb total then
    m ← statistics_mean energies;
    Ret (PrimFloat.div m conversion)
  else Ret (PrimFloat.div (builtin_sum energies) conversion).

(** ** Vocabulary of the properties *)

(** The name that the renaming loop gives the member found at position
    [i] (counted from 0). *)
Definition renamed (i : nat) (p : Particle) : Particle :=
  set_name (drop_last (name p) ++ str (i + 1))%string p.

(** What the memo table promises while the objects below [N] are being
    copied: every entry leads from such an object to one allocated at or
    above [N] that holds the same state. *)
Definition memo_ok (N : nat) (h : heap) (memo : list (loc * loc)) : Prop :=
  forall l l', memo_get l memo = Some l' ->
    l < N /\ N <= l' < length h /\ deref h l' = deref h l.

(** The state of the loop with respect to the snapshots: the live
    particles lie below [N]; every snapshot lies at or above it, within the
    store; and the last snapshot taken reads as the live bunch does. *)
Definition recorded (protons : Bunch) (N : nat) (s : Sim) : Prop :=
  N <= length (store_of s) /\
  Forall (fun d => Forall (fun l => N <= l < length (store_of s)) (bunch d)) (Data s) /\
  (exists d, last (Data s) = Some d /\
             members (store_of s) d = members (store_of s) protons).

(** [later] keeps the snapshots of [s], in place and unchanged. *)
Definition keeps (s later : Sim) : Prop :=
  (exists more, Data later = Data s ++ more) /\
  Forall (fun d => members (store_of later) d = members (store_of s) d) (Data s).

(** The integrator that [update] runs for a selector. *)
Definition integrator `{ParticleOps} (deltaT : float) (field : EMField) (time : float)
    (set_method : Z) : Particle -> exn * Particle + Particle :=
  if (set_method =? 0)%Z then euler deltaT
  else if (set_method =? 1)%Z then eulerCromer deltaT
  else if (set_method =? 2)%Z then velocityVerlet deltaT field time
  else RungeKutta4 deltaT field time.

(** The bookkeeping of the loop: one snapshot per recorded time, the
    current time recorded last, and every earlier time within the
    duration. *)
Definition on_record (s : Sim) : Prop :=
  length (Data s) = length (timeSeries s) /\
  exists earlier,
    timeSeries s = earlier ++ [time_of s] /\
    Forall (fun t => PrimFloat.leb t duration = true) earlier.

(** Each recorded time is the one before it plus the full step or plus a
    hundredth of it. *)
Definition stepwise (times : list float) : Prop :=
  forall i t t', times !! i = Some t -> times !! S i = Some t' ->
    t' = PrimFloat.add t deltaT0 \/
    t' = PrimFloat.add t (PrimFloat.mul deltaT0 0.01%float).

(** ** Concrete instances used in the examples *)

Module Demo.

Definition zero3 : vec3 := (F.zero, F.zero, F.zero).

Definition vscale (k : float) (v : vec3) : vec3 :=
  (PrimFloat.mul k (vx v), PrimFloat.mul k (vy v), PrimFloat.mul k (vz v)).

(** A particle at rest on the x axis. *)
Definition at_x (s : string) (x : float) : Particle :=
  mkParticle s (x, F.zero, F.zero) zero3 zero3.

(** A particle at the origin moving along the x axis. *)
Definition moving (s : string) (v : float) : Particle :=
  mkParticle s zero3 (v, F.zero, F.zero) zero3.

(** Textbook steppers standing for the particle class. *)
Definition step_euler (dt : float) (p : Particle) : exn * Particle + Particle :=
  inr (mkParticle (name p)
         (vadd (position p) (vscale dt (velocity p)))
         (vadd (velocity p) (vscale dt (acceleration p)))
         (acceleration p)).

Definition step_eulerCromer (dt : float) (p : Particle) : exn * Particle + Particle :=
  let v := vadd (velocity p) (vscale dt (acceleration p)) in
  inr (mkParticle (name p) (vadd (position p) (vscale dt v)) v (acceleration p)).

Definition step_verlet (dt : float) (field : EMField) (time : float) (p : Particle)
  : exn * Particle + Particle :=
  let v := vadd (velocity p) (vscale dt (acceleration p)) in
  inr (mkParticle (name p)
         (vadd (position p) (vscale dt (vadd (velocity p) (vscale 0.5%float (vscale dt (acceleration p))))))
         v (acceleration p)).

Definition step_rk4 (dt : float) (field : EMField) (time : float) (p : Particle)
  : exn * Particle + Particle :=
  inr (mkParticle (name p)
         (vadd (position p) (vscale dt (velocity p)))
         (vadd (velocity p) (vscale (PrimFloat.mul dt time) (acceleration p)))
         (acceleration p)).

Definition particle_ops : ParticleOps :=
  {| euler := step_euler; eulerCromer := step_eulerCromer;
     velocityVerlet := step_verlet; RungeKutta4 := step_rk4 |}.

(** A field that pushes every particle along the x axis. *)
Definition field_ops : FieldOps :=
  {| getAcceleration := fun field ps time dt =>
       inr (map (fun p => mkParticle (name p) (position p) (velocity p)
                             (1e15%float, F.zero, F.zero)) ps) |}.

(** The field of the script: the electric region is [-0.05, 0.05]. *)
Definition field : EMField := mkEMField (-0.05)%float 0.05%float.

Definition ProtonBunch : list string := ["ProtonBunch"; "Bunch"; "ABC"; "object"]%string.
Definition ElectronBunch : list string := ["ElectronBunch"; "Bunch"; "ABC"; "object"]%string.
Definition SlowProtonBunch : list string :=
  ["SlowProtonBunch"; "ProtonBunch"; "Bunch"; "ABC"; "object"]%string.

(** A store with three protons and three bunches over it. *)
Definition h3 : heap :=
  [at_x "proton 1" 0.01%float; at_x "proton 1" 0.02%float; at_x "proton 1" 0.03%float].

Definition bunchA : Bunch := mkBunch ProtonBunch (Some 120e6%float) 1 0.01%float [0] "protons".
Definition bunchB : Bunch := mkBunch ProtonBunch (Some 100e6%float) 1 0.01%float [1] "protons".
Definition bunchC : Bunch := mkBunch ProtonBunch (Some 100e6%float) 1 0.01%float [2] "protons".
Definition electrons : Bunch := mkBunch ElectronBunch (Some 1e6%float) 1 0.01%float [2] "electrons".
Definition slow : Bunch := mkBunch SlowProtonBunch (Some 1e6%float) 1 0.01%float [2] "protons".

(** Two members: one inside the electric region, one far from it. *)
Definition pair : Bunch := mkBunch ProtonBunch (Some 120e6%float) 2 0.01%float [0; 1] "protons".
Definition h_near : heap := [at_x "proton 1" 1%float; at_x "proton 2" 0.02%float].
Definition h_far : heap := [at_x "proton 1" 1%float; at_x "proton 2" (-0.06)%float].
(** A member exactly on the padded upper bound. *)
Definition h_edge : heap := [at_x "proton 1" 1%float; at_x "proton 2" (paddedUpper field)].

(** One proton moving at twice the speed of light, and one at exactly the
    speed of light. *)
Definition h_fast : heap := [moving "proton 1" 6e8%float].
Definition h_light : heap := [moving "proton 1" F.c].
Definition h_slow : heap := [moving "proton 1" 1e8%float].

(** A proton-like species: the speed of an energy [e] in eV is
    [sqrt (2 e q / m)], along the x axis. *)
Definition proton_velocity (e : float) : vec3 :=
  (PrimFloat.sqrt (PrimFloat.div (PrimFloat.mul (PrimFloat.mul 2%float e) 1.602176634e-19%float)
                                 1.67262192369e-27%float),
   F.zero, F.zero).

Definition protons : Species :=
  mkSpecies ProtonBunch "protons" (spec_createBunch "proton " proton_velocity).

(** Deviates: the first draw is far in the lower tail, the others are at
    the mean. *)
Definition rng_low_first (k : nat) : float :=
  match k with O => (-20000)%float | _ => 0%float end.

Definition rng_half (k : nat) : float := 0.5%float.

(** Ten protons named after their index, from proton 1 to proton 10, and
    an eleventh one that is a bunch of its own. *)
Definition h11 : heap :=
  map (fun i => at_x ("proton " ++ str i)%string 1%float) (seq 1 10)
  ++ [at_x "proton 1" 2%float].
Definition ten : Bunch :=
  mkBunch ProtonBunch (Some 120e6%float) 10 0.01%float (seq 0 10) "protons".
Definition one : Bunch :=
  mkBunch ProtonBunch (Some 120e6%float) 1 0.01%float [10] "protons".

(** A state of the loop one step short of the duration, with no particle. *)
Definition nobody : Bunch := mkBunch ProtonBunch (Some 120e6%float) 0 0.01%float [] "protons".
Definition late : Sim :=
  mkSim [] 2.379995e-6%float [0%float; 2.379995e-6%float] [nobody; nobody] [].

(** A stepper that fails on the particle called proton 2, after it has
    moved it. *)
Definition step_picky (dt : float) (p : Particle) : exn * Particle + Particle :=
  if String.eqb (name p) "proton 2"
  then inl (StepError "overflow",
            mkParticle (name p) (vadd (position p) (vscale dt (velocity p)))
                       (velocity p) (acceleration p))
  else step_euler dt p.

Definition picky_ops : ParticleOps :=
  {| euler := step_picky; eulerCromer := step_eulerCromer;
     velocityVerlet := step_verlet; RungeKutta4 := step_rk4 |}.

(** Three protons, the second of which is the one refused. *)
Definition trio : Bunch := mkBunch ProtonBunch (Some 120e6%float) 3 0.01%float [0; 1; 2] "protons".
Definition h_trio : heap :=
  [moving "proton 1" 1e7%float; moving "proton 2" 2e7%float; moving "proton 3" 3e7%float].

(** Kinetic energy of a proton, classically, and plain left-to-right
    numerics. *)
Definition energy_ops : ParticleEnergy :=
  {| particle_KineticEnergy := fun p =>
       PrimFloat.mul (PrimFloat.mul 0.5%float 1.67262192369e-27%float)
         (PrimFloat.mul (norm3 (velocity p)) (norm3 (velocity p))) |}.

Definition numerics : PythonNumerics :=
  {| sum_of := fun data => fold_left PrimFloat.add data 0%float;
     mean_of := fun data =>
       PrimFloat.div (fold_left PrimFloat.add data 0%float) (F.of_nat (length data)) |}.

End Demo.

(** * Properties *)

(** ** The adaptive step *)

Lemma existsb_false_iff {A : Type} (f : A -> bool) (l : list A) :
  existsb f l = false <-> (forall x, In x l -> f x = false).
Proof.
  induction l as [|a l IH]; simpl.
  - split; [intros _ x [] | reflexivity].
  - rewrite orb_false_iff, IH. split.
    + intros [Ha Hl] x [<- | Hx]; auto.
    + intros Hall. split; [apply Hall; now left | intros x Hx; apply Hall; now right].
Qed.

(** C1: [adaptiveStep deltaT field] is [deltaT * 0.01] when some member's
    x-position lies in the closed interval between the lower bound padded
    downwards and the upper bound padded upwards by a tenth of their
    magnitudes, and is [deltaT] itself when no member's does. *)
Theorem adaptiveStep_spec (h : heap) (self : Bunch) (deltaT : float) (field : EMField) :
  let lower := PrimFloat.sub (electricLowerBound field)
                 (PrimFloat.mul 0.1%float (PrimFloat.abs (electricLowerBound field))) in
  let upper := PrimFloat.add (electricUpperBound field)
                 (PrimFloat.mul 0.1%float (PrimFloat.abs (electricUpperBound field))) in
  let within (p : Particle) :=
    PrimFloat.leb lower (vx (position p)) = true /\
    PrimFloat.leb (vx (position p)) upper = true in
  ((exists p, In p (members h self) /\ within p) ->
     adaptiveStep h self deltaT field = PrimFloat.mul deltaT 0.01%float) /\
  ((forall p, In p (members h self) -> ~ within p) ->
     adaptiveStep h self deltaT field = deltaT).
Proof.
  intros lower upper within. unfold adaptiveStep. split.
  - intros (p & Hin & Hlo & Hup).
    assert (Hex : existsb (electric_influence field) (members h self) = true).
    { apply existsb_exists. exists p. split; [exact Hin|].
      unfold electric_influence, F.between, paddedLower, paddedUpper.
      fold lower upper. now rewrite Hlo, Hup. }
    now rewrite Hex.
  - intros Hnone.
    assert (Hex : existsb (electric_influence field) (members h self) = false).
    { apply existsb_false_iff. intros p Hin.
      unfold electric_influence, F.between, paddedLower, paddedUpper.
      fold lower upper. apply andb_false_iff.
      destruct (PrimFloat.leb lower (vx (position p))) eqn:Hlo; [|now left].
      destruct (PrimFloat.leb (vx (position p)) upper) eqn:Hup; [|now right].
      exfalso. apply (Hnone p Hin). now split. }
    now rewrite Hex.
Qed.

(** The step is shortened with a member inside the region and with a
    member exactly on the padded bound, and kept with every member
    outside. *)
Lemma adaptiveStep_spec_witness :
  adaptiveStep Demo.h_near Demo.pair deltaT0 Demo.field = PrimFloat.mul deltaT0 0.01%float /\
  adaptiveStep Demo.h_edge Demo.pair deltaT0 Demo.field = PrimFloat.mul deltaT0 0.01%float /\
  adaptiveStep Demo.h_far Demo.pair deltaT0 Demo.field = deltaT0.
Proof.
  split; [|split].
  - apply (proj1 (adaptiveStep_spec Demo.h_near Demo.pair deltaT0 Demo.field)).
    exists (Demo.at_x "proton 2" 0.02%float). split; [right; left; reflexivity|].
    split; vm_compute; reflexivity.
  - apply (proj1 (adaptiveStep_spec Demo.h_edge Demo.pair deltaT0 Demo.field)).
    exists (Demo.at_x "proton 2" (paddedUpper Demo.field)). split; [right; left; reflexivity|].
    split; vm_compute; reflexivity.
  - apply (proj2 (adaptiveStep_spec Demo.h_far Demo.pair deltaT0 Demo.field)).
    intros p [<- | [<- | []]] [Hlo Hup]; vm_compute in Hlo, Hup; discriminate.
Defined.

(** ** The integrator dispatch *)

Section Update.

Context `{ParticleOps}.

Lemma update_rk4 (self : Bunch) (deltaT : float) (field : EMField) (time : float) (h : heap) :
  update self deltaT field time 3 h =
  updated [] (for_particles (RungeKutta4 deltaT field time) (bunch self) h).
Proof. reflexivity. Qed.

Lemma update_fallback (self : Bunch) (deltaT : float) (field : EMField) (time : float)
    (set_method : Z) (h : heap) :
  set_method <> 0%Z -> set_method <> 1%Z -> set_method <> 2%Z -> set_method <> 3%Z ->
  update self deltaT field time set_method h =
  updated [invalid_set_method]
          (for_particles (RungeKutta4 deltaT field time) (bunch self) h).
Proof.
  intros H0 H1 H2 H3. unfold update.
  apply Z.eqb_neq in H0, H1, H2, H3. now rewrite H0, H1, H2, H3.
Qed.

(** C5: with a selector other than 0, 1, 2 and 3 (4, for one), [update]
    leaves every particle in the state that selector 3 leaves it in, and
    raises what selector 3 raises; the runs differ in the warning, which
    only the unrecognised selector logs. *)
Theorem update_unrecognised_selector (self : Bunch) (deltaT : float) (field : EMField)
    (time : float) (set_method : Z) (h : heap) :
  set_method <> 0%Z -> set_method <> 1%Z -> set_method <> 2%Z -> set_method <> 3%Z ->
  after (update self deltaT field time set_method h) =
    after (update self deltaT field time 3 h) /\
  members (after (update self deltaT field time set_method h)) self =
    members (after (update self deltaT field time 3 h)) self /\
  raised (update self deltaT field time set_method h) =
    raised (update self deltaT field time 3 h) /\
  warnings (update self deltaT field time set_method h) = [invalid_set_method] /\
  warnings (update self deltaT field time 3 h) = [].
Proof.
  intros H0 H1 H2 H3.
  rewrite (update_fallback self deltaT field time set_method h H0 H1 H2 H3), update_rk4.
  repeat split; reflexivity.
Qed.

(** C10: with selector 0 (Euler) or 1 (Euler-Cromer) the outcome of
    [update] is the same whatever field and time it is given. *)
Theorem update_euler_ignores_field_and_time (self : Bunch) (deltaT : float)
    (field1 field2 : EMField) (time1 time2 : float) (set_method : Z) (h : heap) :
  set_method = 0%Z \/ set_method = 1%Z ->
  update self deltaT field1 time1 set_method h =
  update self deltaT field2 time2 set_method h.
Proof.
  intros [-> | ->]; reflexivity.
Qed.

End Update.

(** Selector 4 on two protons, with the steppers of [Demo]. *)
Lemma update_unrecognised_selector_witness :
  members (after (@update Demo.particle_ops Demo.pair deltaT0 Demo.field 1%float 4 Demo.h_near))
          Demo.pair =
  members (after (@update Demo.particle_ops Demo.pair deltaT0 Demo.field 1%float 3 Demo.h_near))
          Demo.pair.
Proof.
  apply (@update_unrecognised_selector Demo.particle_ops Demo.pair deltaT0 Demo.field
           1%float 4%Z Demo.h_near); lia.
Defined.

(** Euler-Cromer under two different fields and times. *)
Lemma update_euler_ignores_field_and_time_witness :
  @update Demo.particle_ops Demo.pair deltaT0 Demo.field 1%float 1 Demo.h_near =
  @update Demo.particle_ops Demo.pair deltaT0 (mkEMField 3%float 4%float) 2%float 1 Demo.h_near.
Proof.
  apply (@update_euler_ignores_field_and_time Demo.particle_ops). right. reflexivity.
Defined.

(** ** The Lorentz factor *)

(** C7 (as amended): [gamma] evaluates [1 / sqrt (1 - speed^2 / c^2)] on
    the norm [speed] of the componentwise average velocity and has no guard
    of its own; a speed at or above that of light does not give NaN: when
    the radicand is negative the square root raises [ValueError], when the
    square root is zero the division raises [ZeroDivisionError], and only
    otherwise is a value returned. *)
Theorem gamma_spec (h : heap) (self : Bunch) :
  let speed := np_linalg_norm (np_mean_axis0 (map velocity (members h self))) in
  let r := PrimFloat.sub 1%float
             (PrimFloat.div (PrimFloat.mul speed speed) (PrimFloat.mul F.c F.c)) in
  (PrimFloat.ltb r 0%float = true ->
     gamma h self = Raise (ValueError "math domain error")) /\
  (PrimFloat.ltb r 0%float = false -> PrimFloat.eqb (PrimFloat.sqrt r) 0%float = true ->
     gamma h self = Raise ZeroDivisionError) /\
  (PrimFloat.ltb r 0%float = false -> PrimFloat.eqb (PrimFloat.sqrt r) 0%float = false ->
     gamma h self = Ret (PrimFloat.div 1%float (PrimFloat.sqrt r))).
Proof.
  intros speed r. unfold gamma, averageVelocity. fold speed.
  unfold radicand. fold r. unfold F.math_sqrt, F.py_div, F.zero.
  split; [|split].
  - intros Hneg. now rewrite Hneg.
  - intros Hneg Hzero. rewrite Hneg. simpl. now rewrite Hzero.
  - intros Hneg Hzero. rewrite Hneg. simpl. now rewrite Hzero.
Qed.

(** A proton at a third of the speed of light has a Lorentz factor; at
    twice the speed of light and at the speed of light [gamma] raises. *)
Lemma gamma_spec_witness :
  gamma Demo.h_slow Demo.bunchA = Ret 1.0607520004442041%float /\
  gamma Demo.h_fast Demo.bunchA = Raise (ValueError "math domain error") /\
  gamma Demo.h_light Demo.bunchA = Raise ZeroDivisionError.
Proof.
  split; [|split].
  - apply (proj2 (proj2 (gamma_spec Demo.h_slow Demo.bunchA))); vm_compute; reflexivity.
  - apply (proj1 (gamma_spec Demo.h_fast Demo.bunchA)); vm_compute; reflexivity.
  - apply (proj1 (proj2 (gamma_spec Demo.h_light Demo.bunchA))); vm_compute; reflexivity.
Defined.

(** C7, as stated, fails: the average speed of a single proton moving at
    [6e8] m/s is above [c], and [gamma] raises instead of returning NaN (or
    any other value); at exactly [c] it raises as well. *)
Lemma gamma_superluminal_raises :
  PrimFloat.leb F.c (np_linalg_norm (averageVelocity Demo.h_fast Demo.bunchA)) = true /\
  ~ (exists g, gamma Demo.h_fast Demo.bunchA = Ret g) /\
  PrimFloat.leb F.c (np_linalg_norm (averageVelocity Demo.h_light Demo.bunchA)) = true /\
  ~ (exists g, gamma Demo.h_light Demo.bunchA = Ret g).
Proof.
  repeat split; try (vm_compute; reflexivity);
    intros [g Hg]; vm_compute in Hg; discriminate.
Qed.

(** NaN comes out of [gamma] only when it goes in. *)
Example gamma_of_nan :
  gamma [Demo.moving "proton 1" nan] Demo.bunchA = Ret nan.
Proof. vm_compute. reflexivity. Qed.

(** ** Sampling positions *)

Lemma length_draw_rows (rng : nat -> float) (loc scale : float) (n k : nat) :
  length (draw_rows rng loc scale n k) = n.
Proof.
  revert k. induction n as [|n IH]; intros k; simpl; [reflexivity|]. now rewrite IH.
Qed.

Lemma lookup_draw_rows (rng : nat -> float) (loc scale : float) (n k i : nat) :
  i < n ->
  draw_rows rng loc scale n k !! i =
  Some (normal_draw rng loc scale (k + 3 * i), normal_draw rng loc scale (k + 3 * i + 1),
        normal_draw rng loc scale (k + 3 * i + 2)).
Proof.
  revert k i. induction n as [|n IH]; intros k i Hi; [lia|].
  destruct i as [|i]; cbn [draw_rows lookup list_lookup].
  - now replace (k + 3 * 0) with k by lia.
  - rewrite IH by lia.
    now replace (k + 3 + 3 * i) with (k + 3 * S i) by lia.
Qed.

(** C8: for a bunch with a valid spread (not negative) and particle count,
    [assignPositions] returns one vector per particle, the i-th one made of
    the i-th triple of draws, and the third coordinate of every vector is
    exactly [0]. *)
Theorem assignPositions_spec (self : Bunch) (rng : nat -> float) (k : nat) :
  PrimFloat.ltb (positionSigma self) 0%float = false ->
  (0 <= bunch_number self)%Z ->
  exists positions,
    assignPositions self rng k = Ret (positions, k + 3 * Z.to_nat (bunch_number self)) /\
    Z.of_nat (length positions) = bunch_number self /\
    Forall (fun v : vec3 => vz v = 0%float) positions /\
    (forall i, i < length positions ->
       positions !! i =
       Some (normal_draw rng 0%float (positionSigma self) (k + 3 * i),
             normal_draw rng 0%float (positionSigma self) (k + 3 * i + 1),
             0%float)).
Proof.
  intros Hsigma Hn. unfold assignPositions, np_random_normal_rows, F.zero.
  rewrite Hsigma. apply Z.ltb_ge in Hn. rewrite Hn. apply Z.ltb_ge in Hn.
  eexists. split; [reflexivity|].
  rewrite length_map, length_draw_rows. split; [lia|]. split.
  - apply List.Forall_forall. intros v Hv. apply in_map_iff in Hv. now destruct Hv as (w & <- & _).
  - intros i Hi. rewrite list_lookup_fmap, lookup_draw_rows by exact Hi. reflexivity.
Qed.

Lemma assignPositions_spec_witness :
  exists positions,
    assignPositions Demo.pair Demo.rng_half 0 = Ret (positions, 6) /\
    Z.of_nat (length positions) = 2%Z /\
    Forall (fun v : vec3 => vz v = 0%float) positions.
Proof.
  destruct (assignPositions_spec Demo.pair Demo.rng_half 0) as (ps & Hrun & Hlen & Hz & _).
  - vm_compute. reflexivity.
  - vm_compute. discriminate.
  - exists ps. split; [exact Hrun|]. split; [exact Hlen | exact Hz].
Defined.

(** A negative spread is refused by the sampler. *)
Example assignPositions_negative_sigma :
  assignPositions (mkBunch Demo.ProtonBunch (Some 1%float) 2 (-0.01)%float [] "protons")
                  Demo.rng_half 0 = Raise (ValueError "scale < 0").
Proof. vm_compute. reflexivity. Qed.

(** ** Sampling energies *)

Lemma length_draws (rng : nat -> float) (loc scale : float) (n k : nat) :
  length (draws rng loc scale n k) = n.
Proof.
  revert k. induction n as [|n IH]; intros k; simpl; [reflexivity|]. now rewrite IH.
Qed.

(** A pass of the [for] loop writes into the array; it never resizes it. *)
Lemma resample_pass_length (rng : nat -> float) (mu sigma : float) (visit : list nat) :
  forall energies k energies' k',
    resample_pass rng mu sigma visit energies k = Ret (energies', k') ->
    length energies' = length energies.
Proof.
  induction visit as [|i visit IH]; intros energies k energies' k' Hrun; simpl in Hrun.
  - now inversion Hrun.
  - destruct (PrimFloat.leb (nth i energies F.zero) F.zero).
    + unfold np_random_normal in Hrun.
      destruct (PrimFloat.ltb sigma F.zero); [discriminate|]. simpl in Hrun.
      destruct (float_index (nth i energies F.zero) energies) as [j|]; [|discriminate].
      apply IH in Hrun. now rewrite length_insert in Hrun.
    + now apply IH in Hrun.
Qed.

(** The [while] loop is left only with every sample positive. *)
Lemma resample_loop_exit (rng : nat -> float) (mu sigma : float) (fuel : nat) :
  forall energies k energies' k',
    resample_loop fuel rng mu sigma energies k = Ret (energies', k') ->
    forallb F.positive energies' = true /\ length energies' = length energies.
Proof.
  induction fuel as [|fuel IH]; intros energies k energies' k' Hrun; simpl in Hrun;
    [discriminate|].
  destruct (forallb F.positive energies) eqn:Hall.
  - inversion Hrun; subst. now split.
  - destruct (resample_pass rng mu sigma (seq 0 (length energies)) energies k)
      as [[es1 k1]| |] eqn:Hpass; simpl in Hrun; try discriminate.
    apply IH in Hrun. destruct Hrun as [Hpos Hlen]. split; [exact Hpos|].
    rewrite Hlen. eapply resample_pass_length, Hpass.
Qed.

(** With every first draw positive the loop body never runs. *)
Lemma resample_loop_all_positive (rng : nat -> float) (mu sigma : float) (fuel : nat)
    (energies : list float) (k : nat) :
  forallb F.positive energies = true ->
  resample_loop (S fuel) rng mu sigma energies k = Ret (energies, k).
Proof. intros Hall. simpl. now rewrite Hall. Qed.


(** *** When the resampling loop ends *)

Lemma Prim2SF_zero : Prim2SF 0%float = S754_zero false.
Proof. reflexivity. Qed.

(** A value that compares [<= 0] is a number, equal to itself. *)
Lemma nonpositive_eqb_refl (e : float) :
  PrimFloat.leb e 0%float = true -> PrimFloat.eqb e e = true.
Proof.
  rewrite FloatAxioms.leb_spec, FloatAxioms.eqb_spec, Prim2SF_zero. unfold SFleb, SFeqb.
  destruct (Prim2SF e) as [s|s| |s m ex]; cbn; try discriminate; try reflexivity.
  - destruct s; reflexivity.
  - intros _. destruct s; rewrite Z.compare_refl, Pos.compare_cont_refl; reflexivity.
Qed.

(** A positive value is never [==] to a non-positive one. *)
Lemma positive_neq_nonpositive (x e : float) :
  PrimFloat.ltb 0%float x = true -> PrimFloat.leb e 0%float = true ->
  PrimFloat.eqb x e = false.
Proof.
  rewrite FloatAxioms.ltb_spec, FloatAxioms.leb_spec, FloatAxioms.eqb_spec, Prim2SF_zero. unfold SFltb, SFleb, SFeqb.
  destruct (Prim2SF x) as [sx|sx| |sx mx ex], (Prim2SF e) as [se|se| |se me ee]; cbn;
    try discriminate; try reflexivity;
    repeat match goal with s : bool |- _ => destruct s end; cbn;
    try discriminate; try reflexivity.
Qed.

(** [list.index] finds a value at the first position holding it. *)
Lemma float_index_first (x : float) (l : list float) (i : nat) :
  i < length l ->
  (forall j, j < i -> PrimFloat.eqb (nth j l F.zero) x = false) ->
  PrimFloat.eqb (nth i l F.zero) x = true ->
  float_index x l = Some i.
Proof.
  revert i. induction l as [|y l IH]; intros i Hi Hbefore Hat; cbn [length] in Hi; [lia|].
  cbn [float_index]. destruct i as [|i].
  - cbn [nth] in Hat. now rewrite Hat.
  - assert (H0 : PrimFloat.eqb y x = false) by (apply (Hbefore 0); lia).
    rewrite H0. rewrite (IH i); [reflexivity|lia| |exact Hat].
    intros j Hj. apply (Hbefore (S j)). lia.
Qed.

Lemma nth_insert_eq (l : list float) (i : nat) (x : float) :
  i < length l -> nth i (<[i := x]> l) F.zero = x.
Proof.
  intros Hi. rewrite nth_lookup, list_lookup_insert_eq by exact Hi. reflexivity.
Qed.

Lemma nth_insert_ne (l : list float) (i j : nat) (x : float) :
  i <> j -> nth j (<[i := x]> l) F.zero = nth j l F.zero.
Proof.
  intros Hne. now rewrite !nth_lookup, list_lookup_insert_ne by exact Hne.
Qed.

Section Resampling.

Variables (rng : nat -> float) (mu sigma : float).

Variable k0 : nat.

(** The scale is accepted by the sampler and every draw from the [k0]-th
    on is positive. *)
Hypothesis scale_ok : PrimFloat.ltb sigma F.zero = false.
Hypothesis draws_positive :
  forall k, k0 <= k -> F.positive (normal_draw rng mu sigma k) = true.

(** One pass from position [i] on, over an array of numbers whose
    positions before [i] are positive, leaves every position positive. *)
Lemma resample_pass_settles (r : nat) :
  forall i energies k,
    k0 <= k ->
    i + r = length energies ->
    (forall j, j < i -> F.positive (nth j energies F.zero) = true) ->
    (forall j, j < length energies ->
       PrimFloat.leb (nth j energies F.zero) F.zero = true \/
       F.positive (nth j energies F.zero) = true) ->
    exists energies' k',
      resample_pass rng mu sigma (seq i r) energies k = Ret (energies', k') /\
      length energies' = length energies /\
      (forall j, j < length energies' -> F.positive (nth j energies' F.zero) = true).
Proof.
  induction r as [|r IH]; intros i energies k Hk Hlen Hbefore Hnum.
  - exists energies, k. cbn [seq resample_pass]. split; [reflexivity|]. split; [reflexivity|].
    intros j Hj. apply Hbefore. lia.
  - cbn [seq resample_pass].
    destruct (PrimFloat.leb (nth i energies F.zero) F.zero) eqn:Hle.
    + unfold np_random_normal. rewrite scale_ok. cbn [mbind outcome_bind].
      rewrite (float_index_first (nth i energies F.zero) energies i).
      * destruct (IH (S i) (<[i := normal_draw rng mu sigma k]> energies) (S k))
          as (es' & k' & Hrun & Hlen' & Hpos).
        -- lia.
        -- rewrite length_insert. lia.
        -- intros j Hj. destruct (decide (j = i)) as [->|Hne].
           ++ rewrite nth_insert_eq by lia. now apply draws_positive.
           ++ rewrite nth_insert_ne by congruence. apply Hbefore. lia.
        -- intros j Hj. rewrite length_insert in Hj. destruct (decide (j = i)) as [->|Hne].
           ++ right. rewrite nth_insert_eq by lia. now apply draws_positive.
           ++ rewrite nth_insert_ne by congruence. now apply Hnum.
        -- exists es', k'. split; [exact Hrun|]. split; [|exact Hpos].
           now rewrite Hlen', length_insert.
      * lia.
      * intros j Hj. apply positive_neq_nonpositive; [|exact Hle].
        exact (Hbefore j Hj).
      * now apply nonpositive_eqb_refl.
    + destruct (IH (S i) energies k) as (es' & k' & Hrun & Hlen' & Hpos).
      * exact Hk.
      * lia.
      * intros j Hj. destruct (decide (j = i)) as [->|Hne].
        -- destruct (Hnum i) as [Habs|Hok]; [lia| |exact Hok]. congruence.
        -- apply Hbefore. lia.
      * exact Hnum.
      * exists es', k'. repeat split; assumption.
Qed.

(** When every draw is positive from some point on, an array of numbers
    is made positive by one pass of redraws: the loop returns within two
    tests of its condition. *)
Lemma resample_loop_returns (fuel : nat) (energies : list float) (k : nat) :
  k0 <= k ->
  Forall (fun e => PrimFloat.leb e F.zero = true \/ F.positive e = true) energies ->
  exists energies' k',
    resample_loop (S (S fuel)) rng mu sigma energies k = Ret (energies', k') /\
    length energies' = length energies /\
    forallb F.positive energies' = true.
Proof.
  intros Hk Hnum. cbn [resample_loop].
  destruct (forallb F.positive energies) eqn:Hall.
  - exists energies, k. split; [reflexivity|]. split; [reflexivity | exact Hall].
  - destruct (resample_pass_settles (length energies) 0 energies k)
      as (es' & k' & Hrun & Hlen & Hpos).
    + exact Hk.
    + reflexivity.
    + intros j Hj. lia.
    + intros j Hj. rewrite List.Forall_forall in Hnum. apply Hnum. now apply nth_In.
    + rewrite Hrun. cbn [mbind outcome_bind].
      assert (Hall' : forallb F.positive es' = true).
      { apply forallb_forall. intros e He.
        destruct (In_nth es' e F.zero He) as (j & Hj & <-). now apply Hpos. }
      rewrite Hall'. exists es', k'. repeat split; assumption.
Qed.

End Resampling.

Lemma draws_inv (rng : nat -> float) (loc scale : float) (n : nat) :
  forall k e, In e (draws rng loc scale n k) ->
              exists j, j < n /\ e = normal_draw rng loc scale (k + j).
Proof.
  induction n as [|n IH]; intros k e He; cbn [draws] in He; [contradiction|].
  destruct He as [<- | He].
  - exists 0. split; [lia|]. now rewrite Nat.add_0_r.
  - destruct (IH (S k) e He) as (j & Hj & ->). exists (S j). split; [lia|].
    f_equal. lia.
Qed.

(** C4: for a bunch with a positive mean energy, whenever
    [distributeEnergies] returns, it returns as many values as the particle
    count and every one of them is greater than 0.  It does return: at once
    when the first draws are all positive, and after redrawing the
    non-positive ones when the draws are numbers and the redraws are
    positive. *)
Theorem distributeEnergies_positive (self : Bunch) (rng : nat -> float) (mu : float) :
  average_kinetic_energy self = Some mu ->
  PrimFloat.ltb 0%float mu = true ->
  let sigma := PrimFloat.mul 0.0001%float mu in
  let n := Z.to_nat (bunch_number self) in
  (forall k fuel energies k',
     distributeEnergies self rng k fuel = Ret (energies, k') ->
     Z.of_nat (length energies) = bunch_number self /\
     Forall (fun e => PrimFloat.ltb 0%float e = true) energies) /\
  (forall k fuel,
     PrimFloat.ltb sigma 0%float = false ->
     (0 <= bunch_number self)%Z ->
     Forall (fun e => PrimFloat.ltb 0%float e = true) (draws rng mu sigma n k) ->
     distributeEnergies self rng k (S fuel) = Ret (draws rng mu sigma n k, k + n)) /\
  (forall k fuel,
     PrimFloat.ltb sigma 0%float = false ->
     (0 <= bunch_number self)%Z ->
     (forall j, j < n ->
        PrimFloat.leb (normal_draw rng mu sigma (k + j)) 0%float = true \/
        PrimFloat.ltb 0%float (normal_draw rng mu sigma (k + j)) = true) ->
     (forall j, k + n <= j -> PrimFloat.ltb 0%float (normal_draw rng mu sigma j) = true) ->
     exists energies k',
       distributeEnergies self rng k (S (S fuel)) = Ret (energies, k')).
Proof.
  intros Hmu Hpos sigma n.
  unfold distributeEnergies, np_random_normal_array, F.zero. rewrite Hmu. fold sigma.
  split; [|split].
  - intros k fuel energies k' Hrun.
    destruct (PrimFloat.ltb sigma 0); [discriminate|].
    destruct (bunch_number self <? 0)%Z eqn:Hn; [discriminate|]. cbn in Hrun.
    apply resample_loop_exit in Hrun. destruct Hrun as [Hall Hlen].
    rewrite length_draws in Hlen. apply Z.ltb_ge in Hn. split; [lia|].
    apply List.Forall_forall. intros e He.
    rewrite forallb_forall in Hall. exact (Hall e He).
  - intros k fuel Hsigma Hn Hall. rewrite Hsigma.
    apply Z.ltb_ge in Hn. rewrite Hn. cbn [mbind outcome_bind]. fold n.
    apply resample_loop_all_positive.
    apply forallb_forall. intros e He.
    rewrite List.Forall_forall in Hall. exact (Hall e He).
  - intros k fuel Hsigma Hn Hnum Hlater. rewrite Hsigma.
    apply Z.ltb_ge in Hn. rewrite Hn. cbn [mbind outcome_bind]. fold n.
    destruct (resample_loop_returns rng mu sigma (k + n) Hsigma Hlater fuel
                (draws rng mu sigma n k) (k + n) (le_n _))
      as (es' & k' & Hrun & _).
    + apply List.Forall_forall. intros e He.
      destruct (draws_inv rng mu sigma n k e He) as (j & Hj & ->). now apply Hnum.
    + now exists es', k'.
Qed.

(** Two protons at 120 MeV: the first draw falls below zero and is drawn
    again; the result is two positive energies. *)
Lemma distributeEnergies_positive_witness :
  distributeEnergies Demo.pair Demo.rng_low_first 0 2 =
    Ret ([120000000%float; 120000000%float], 3) /\
  Z.of_nat (length [120000000%float; 120000000%float]) = bunch_number Demo.pair /\
  Forall (fun e => PrimFloat.ltb 0%float e = true) [120000000%float; 120000000%float].
Proof.
  split; [vm_compute; reflexivity|].
  apply (proj1 (distributeEnergies_positive Demo.pair Demo.rng_low_first 120e6%float
                  eq_refl eq_refl) 0 2 _ 3).
  vm_compute. reflexivity.
Defined.

(** The first array drawn in that run holds a negative energy. *)
Example first_draw_negative :
  draws Demo.rng_low_first 120e6%float (PrimFloat.mul 0.0001%float 120e6%float) 2 0 =
  [(-120000000)%float; 120000000%float].
Proof. vm_compute. reflexivity. Qed.

(** ** Construction *)

(** [__init__] has no check of its own: it raises what [createBunch]
    raises and returns a bunch whenever [createBunch] returns. *)
Lemma init_follows_createBunch (sp : Species) (AverageKinetic : float) (particleNumber : Z)
    (sigma : float) (rng : nat -> float) (k fuel : nat) (h : heap) :
  let self := mkBunch (species_mro sp) (Some AverageKinetic) particleNumber sigma []
                      (species_bunchName sp) in
  match createBunch sp self rng k fuel h with
  | Ret (ls, k', h') =>
      __init__ sp AverageKinetic particleNumber sigma rng k fuel h =
      Ret (set_bunch ls self, k', h')
  | Raise e => __init__ sp AverageKinetic particleNumber sigma rng k fuel h = Raise e
  | OutOfFuel => __init__ sp AverageKinetic particleNumber sigma rng k fuel h = OutOfFuel
  end.
Proof.
  intros self. unfold __init__. fold self.
  destruct (createBunch sp self rng k fuel h) as [[[ls k'] h']| |]; reflexivity.
Qed.

(** C6: constructing a bunch with a non-positive average kinetic energy
    fails with a construction error, which [__init__] lets through to the
    caller: no bunch is produced, whatever the other arguments, the
    generator and the store are. *)
Theorem init_nonpositive_mean (mro_ : list string) (bunchName_ prefix : string)
    (velocity_of : float -> vec3) (AverageKinetic : float) (particleNumber : Z)
    (sigma : float) (rng : nat -> float) (k fuel : nat) (h : heap) :
  PrimFloat.leb AverageKinetic 0%float = true ->
  __init__ (mkSpecies mro_ bunchName_ (spec_createBunch prefix velocity_of))
           AverageKinetic particleNumber sigma rng k fuel h =
    Raise (ConstructionError "non-positive energy mean") /\
  forall made,
    __init__ (mkSpecies mro_ bunchName_ (spec_createBunch prefix velocity_of))
             AverageKinetic particleNumber sigma rng k fuel h <> Ret made.
Proof.
  intros Hmean.
  assert (Hrun : __init__ (mkSpecies mro_ bunchName_ (spec_createBunch prefix velocity_of))
                          AverageKinetic particleNumber sigma rng k fuel h =
                 Raise (ConstructionError "non-positive energy mean")).
  { unfold __init__, spec_createBunch.
    cbn [createBunch species_mro species_bunchName average_kinetic_energy].
    unfold F.zero. now rewrite Hmean. }
  split; [exact Hrun|]. intros made Hmade. rewrite Hrun in Hmade. discriminate.
Qed.

(** A mean of zero and a negative mean. *)
Lemma init_nonpositive_mean_witness :
  __init__ Demo.protons 0%float 3 0.01%float Demo.rng_half 0 5 [] =
    Raise (ConstructionError "non-positive energy mean") /\
  __init__ Demo.protons (-1)%float 3 0.01%float Demo.rng_half 0 5 [] =
    Raise (ConstructionError "non-positive energy mean").
Proof.
  split.
  - apply (init_nonpositive_mean Demo.ProtonBunch "protons" "proton " Demo.proton_velocity
             0%float 3 0.01%float Demo.rng_half 0 5 []).
    vm_compute. reflexivity.
  - apply (init_nonpositive_mean Demo.ProtonBunch "protons" "proton " Demo.proton_velocity
             (-1)%float 3 0.01%float Demo.rng_half 0 5 []).
    vm_compute. reflexivity.
Defined.

(** With a positive mean the same species is constructed. *)
Example init_positive_mean :
  exists made,
    __init__ Demo.protons 120e6%float 3 0.01%float Demo.rng_half 0 5 [] = Ret made /\
    bunch (fst (fst made)) = [0; 1; 2].
Proof. eexists. split; vm_compute; reflexivity. Qed.

(** ** The store *)

Lemma deref_store_eq (h : heap) (l : loc) (p : Particle) :
  l < length h -> deref (store l p h) l = p.
Proof.
  intros Hl. unfold deref, store. apply list_lookup_total_correct.
  now apply list_lookup_insert_eq.
Qed.

Lemma deref_store_ne (h : heap) (l l' : loc) (p : Particle) :
  l <> l' -> deref (store l p h) l' = deref h l'.
Proof.
  intros Hne. unfold deref, store. now rewrite list_lookup_total_insert_ne.
Qed.

Lemma length_store (h : heap) (l : loc) (p : Particle) : length (store l p h) = length h.
Proof. apply length_insert. Qed.

Lemma deref_app_l (h ext : heap) (l : loc) : l < length h -> deref (h ++ ext) l = deref h l.
Proof. intros Hl. unfold deref. now rewrite lookup_total_app_l. Qed.

Lemma deref_app_r (h ext : heap) (i : nat) :
  deref (h ++ ext) (length h + i) = deref ext i.
Proof.
  unfold deref. rewrite lookup_total_app_r by lia. f_equal. lia.
Qed.

(** ** Deep copies *)

(** Copying a list of distinct objects, none of them copied before,
    allocates one new object per member, in order. *)
Lemma deepcopy_members_distinct (ls : list loc) :
  forall memo h,
    Forall (fun l => l < length h) ls ->
    NoDup ls ->
    (forall l, l ∈ ls -> memo_get l memo = None) ->
    exists memo',
      deepcopy_members ls memo h =
      (seq (length h) (length ls), memo', h ++ map (deref h) ls).
Proof.
  induction ls as [|l ls IH]; intros memo h Hvalid Hnodup Hmemo.
  - exists memo. simpl. now rewrite app_nil_r.
  - apply Forall_cons in Hvalid. destruct Hvalid as [Hl Hvalid].
    apply NoDup_cons in Hnodup. destruct Hnodup as [Hnotin Hnodup].
    cbn [deepcopy_members]. rewrite (Hmemo l) by apply list_elem_of_here.
    unfold alloc.
    destruct (IH ((l, length h) :: memo) (h ++ [deref h l])) as [memo' Hrec].
    + eapply Forall_impl; [exact Hvalid|]. intros x Hx. cbv beta in Hx. rewrite length_app. simpl. lia.
    + exact Hnodup.
    + intros x Hx. cbn [memo_get].
      destruct (Nat.eqb l x) eqn:Heq.
      * apply Nat.eqb_eq in Heq. subst x. contradiction.
      * apply Hmemo. now apply list_elem_of_further.
    + exists memo'. rewrite Hrec. rewrite length_app. cbn [length].
      replace (length h + 1) with (S (length h)) by lia.
      cbn [seq map]. rewrite <- app_assoc. cbn [app]. do 2 f_equal.
      f_equal. apply map_ext_in. intros x Hx.
      apply deref_app_l. rewrite List.Forall_forall in Hvalid. now apply Hvalid.
Qed.

Lemma deepcopy_distinct (self : Bunch) (h : heap) :
  Forall (fun l => l < length h) (bunch self) ->
  NoDup (bunch self) ->
  deepcopy self h =
  (set_bunch (seq (length h) (length (bunch self))) self, h ++ members h self).
Proof.
  intros Hvalid Hnodup. unfold deepcopy.
  destruct (deepcopy_members_distinct (bunch self) [] h Hvalid Hnodup) as [memo' Hrun].
  - reflexivity.
  - now rewrite Hrun.
Qed.

(** ** Renaming *)

Lemma list_index_app_fresh (l : loc) (done rest : list loc) :
  l ∉ done -> list_index l (done ++ l :: rest) = Some (length done).
Proof.
  induction done as [|x done IH]; intros Hnotin; cbn [app list_index length].
  - now rewrite Nat.eqb_refl.
  - apply not_elem_of_cons in Hnotin. destruct Hnotin as [Hne Hnotin].
    destruct (Nat.eqb x l) eqn:Heq.
    + apply Nat.eqb_eq in Heq. congruence.
    + now rewrite IH.
Qed.

Lemma rename_members_distinct (todo : list loc) :
  forall done h,
    NoDup (done ++ todo) ->
    Forall (fun l => l < length h) todo ->
    exists h',
      rename_members (done ++ todo) todo h = Ret h' /\
      length h' = length h /\
      (forall l, l ∉ todo -> deref h' l = deref h l) /\
      (forall j l, todo !! j = Some l ->
         deref h' l = renamed (length done + j) (deref h l)).
Proof.
  induction todo as [|l todo IH]; intros done h Hnodup Hvalid.
  - exists h. cbn [rename_members]. repeat split; try reflexivity.
    intros j l Hj. rewrite lookup_nil in Hj. discriminate.
  - apply Forall_cons in Hvalid. destruct Hvalid as [Hl Hvalid].
    apply NoDup_app in Hnodup. destruct Hnodup as (Hdone & Hdisj & Htodo).
    apply NoDup_cons in Htodo. destruct Htodo as [Hnotin Htodo].
    assert (Hfresh : l ∉ done).
    { intros Hin. apply (Hdisj l Hin). apply list_elem_of_here. }
    cbn [rename_members]. rewrite (list_index_app_fresh l done todo Hfresh).
    fold (renamed (length done) (deref h l)).
    set (h1 := store l (renamed (length done) (deref h l)) h).
    destruct (IH (done ++ [l]) h1) as (h' & Hrun & Hlen & Hframe & Hnames).
    + rewrite <- app_assoc. cbn [app]. apply NoDup_app. repeat split; try assumption.
      apply NoDup_cons. now split.
    + eapply Forall_impl; [exact Hvalid|]. intros x Hx. cbv beta in Hx. unfold h1. now rewrite length_store.
    + rewrite <- app_assoc in Hrun. cbn [app] in Hrun.
      exists h'. split; [exact Hrun|]. split; [now rewrite Hlen; apply length_store|]. split.
      * intros x Hx. apply not_elem_of_cons in Hx. destruct Hx as [Hne Hx].
        rewrite (Hframe x Hx). unfold h1. apply deref_store_ne. congruence.
      * intros j x Hj. destruct j as [|j]; cbn [lookup list_lookup] in Hj.
        -- inversion Hj; subst x. rewrite (Hframe l Hnotin). unfold h1.
           rewrite deref_store_eq by exact Hl. now rewrite Nat.add_0_r.
        -- change (todo !! j = Some x) in Hj.
           rewrite (Hnames j x Hj). rewrite length_app. cbn [length].
           assert (Hne : l <> x).
           { intros ->. apply Hnotin. eapply list_elem_of_lookup_2, Hj. }
           unfold h1. rewrite (deref_store_ne h l x _ Hne).
           f_equal. lia.
Qed.

(** ** Combining two bunches *)

(** C2 fails on the code.  A bunch of ten protons, named proton 1 to
    proton 10 after their index, combined with a bunch of one proton, gives
    eleven members, but the renaming drops only the last character of a
    name: the tenth member is called proton 110 and not proton 10.  And the
    bunch so combined cannot be combined again: its average kinetic energy
    is already deleted, and deleting it once more raises. *)
Theorem add_misnumbers_two_digit_names :
  exists new_bunch h',
    __add__ Demo.ten Demo.one Demo.h11 = Ret (new_bunch, h') /\
    map name (members Demo.h11 Demo.ten) =
      ["proton 1"; "proton 2"; "proton 3"; "proton 4"; "proton 5"; "proton 6";
       "proton 7"; "proton 8"; "proton 9"; "proton 10"]%string /\
    length (bunch new_bunch) = 11 /\
    map name (members h' new_bunch) =
      ["proton 1"; "proton 2"; "proton 3"; "proton 4"; "proton 5"; "proton 6";
       "proton 7"; "proton 8"; "proton 9"; "proton 110"; "proton 11"]%string /\
    __add__ new_bunch Demo.one h' = Raise (AttributeError "average_kinetic_energy").
Proof.
  eexists _, _. split; [vm_compute; reflexivity|].
  repeat split; vm_compute; reflexivity.
Qed.

(** Bunches of different species are not combined. *)
Example add_different_species :
  __add__ Demo.bunchA Demo.electrons Demo.h3 =
  Raise (TypeError "Cannot add bunches of different types together.").
Proof. vm_compute. reflexivity. Qed.

(** A bunch of a species derived from that of the left operand passes the
    instance test. *)
Example add_derived_species :
  class_of Demo.slow <> class_of Demo.bunchA /\
  exists new_bunch h', __add__ Demo.bunchA Demo.slow Demo.h3 = Ret (new_bunch, h').
Proof.
  split; [vm_compute; discriminate|]. eexists _, _. vm_compute. reflexivity.
Qed.

(** Only the last character of a name is replaced: the tenth proton of a
    bunch, at position 12 of a combined bunch, is not called proton 12. *)
Example rename_keeps_leading_digits :
  name (renamed 11 (Demo.at_x "proton 10" 0%float)) = "proton 112"%string.
Proof. reflexivity. Qed.

(** ** Ownership of the members *)

(** C3 fails on the code: after [bunchA + bunchB] the one member of
    [bunchB] is also the second member of the combined bunch, the very same
    object, and the combine has renamed it from proton 1 to proton 2 under
    [bunchB]'s feet; the member of [bunchA] was copied and is untouched. *)
Theorem add_shares_members_of_other :
  exists new_bunch h',
    __add__ Demo.bunchA Demo.bunchB Demo.h3 = Ret (new_bunch, h') /\
    bunch Demo.bunchB = [1] /\
    bunch new_bunch = [3; 1] /\
    map name (members Demo.h3 Demo.bunchB) = ["proton 1"]%string /\
    map name (members h' Demo.bunchB) = ["proton 2"]%string /\
    members h' Demo.bunchA = members Demo.h3 Demo.bunchA.
Proof.
  eexists _, _. split; [vm_compute; reflexivity|].
  repeat split; vm_compute; reflexivity.
Qed.

(** In general every member object of [other] is a member object of the
    combined bunch. *)
Lemma add_aliases_other (self other new_bunch : Bunch) (h h' : heap) (l : loc) :
  Forall (fun l => l < length h) (bunch self) ->
  NoDup (bunch self) ->
  __add__ self other h = Ret (new_bunch, h') ->
  l ∈ bunch other -> l ∈ bunch new_bunch.
Proof.
  intros Hvalid Hnodup Hrun Hl. unfold __add__ in Hrun.
  destruct (negb (isinstance other (class_of self))); [discriminate|].
  rewrite (deepcopy_distinct self h Hvalid Hnodup) in Hrun.
  cbn [set_bunch set_bunch_number set_bunchName del_average_kinetic_energy
       bunch average_kinetic_energy bunch_number mro positionSigma bunchName] in Hrun.
  destruct (average_kinetic_energy self); [|discriminate].
  destruct (rename_members _ _ _) as [h2| |]; cbn in Hrun; try discriminate.
  inversion Hrun; subst. cbn [bunch]. apply elem_of_app. now right.
Qed.

(** ** Deep copies, in general *)

(** Copying only allocates: the store it returns extends the one it was
    given. *)
Lemma deepcopy_members_extends (ls : list loc) :
  forall memo h r memo' h',
    deepcopy_members ls memo h = (r, memo', h') -> exists e, h' = h ++ e.
Proof.
  induction ls as [|l ls IH]; intros memo h r memo' h' Hrun; cbn [deepcopy_members] in Hrun.
  - inversion Hrun; subst. exists []. now rewrite app_nil_r.
  - destruct (memo_get l memo) as [l'|].
    + destruct (deepcopy_members ls memo h) as [[r1 memo1] h1] eqn:Hrec.
      inversion Hrun; subst. eapply IH, Hrec.
    + unfold alloc in Hrun.
      destruct (deepcopy_members ls _ (h ++ [deref h l])) as [[r1 memo1] h1] eqn:Hrec.
      inversion Hrun; subst. destruct (IH _ _ _ _ _ Hrec) as [e ->].
      exists ([deref h l] ++ e). now rewrite app_assoc.
Qed.

Lemma memo_ok_extend (N : nat) (h e : heap) (memo : list (loc * loc)) :
  N <= length h -> memo_ok N h memo -> memo_ok N (h ++ e) memo.
Proof.
  intros HN Hmemo l l' Hget. destruct (Hmemo l l' Hget) as (Hl & Hl' & Hval).
  split; [exact Hl|]. rewrite length_app. split; [lia|].
  rewrite !deref_app_l by lia. exact Hval.
Qed.

Lemma deepcopy_members_spec (N : nat) (ls : list loc) :
  forall memo h r memo' h',
    N <= length h ->
    Forall (fun l => l < N) ls ->
    memo_ok N h memo ->
    deepcopy_members ls memo h = (r, memo', h') ->
    Forall (fun l' => N <= l' < length h') r /\
    map (deref h') r = map (deref h) ls.
Proof.
  induction ls as [|l ls IH]; intros memo h r memo' h' HN Hvalid Hmemo Hrun.
  - cbn [deepcopy_members] in Hrun. inversion Hrun; subst. split; [constructor | reflexivity].
  - apply Forall_cons in Hvalid. destruct Hvalid as [Hl Hvalid].
    cbn [deepcopy_members] in Hrun.
    destruct (memo_get l memo) as [l'|] eqn:Hget.
    + destruct (deepcopy_members ls memo h) as [[r1 memo1] h1] eqn:Hrec.
      inversion Hrun; subst. clear Hrun.
      destruct (deepcopy_members_extends _ _ _ _ _ _ Hrec) as [e ->].
      destruct (IH _ _ _ _ _ HN Hvalid Hmemo Hrec) as [Hfresh Hmap].
      destruct (Hmemo l l' Hget) as (_ & Hrange & Hval).
      split.
      * apply Forall_cons. split; [|exact Hfresh]. rewrite length_app. lia.
      * cbn [map]. rewrite Hmap. f_equal. rewrite deref_app_l by lia. exact Hval.
    + unfold alloc in Hrun.
      destruct (deepcopy_members ls _ (h ++ [deref h l])) as [[r1 memo1] h1] eqn:Hrec.
      inversion Hrun; subst. clear Hrun.
      destruct (deepcopy_members_extends _ _ _ _ _ _ Hrec) as [e ->].
      assert (HN1 : N <= length (h ++ [deref h l])) by (rewrite length_app; lia).
      assert (Hmemo1 : memo_ok N (h ++ [deref h l]) ((l, length h) :: memo)).
      { intros x x' Hx. cbn [memo_get] in Hx.
        destruct (Nat.eqb l x) eqn:Heq.
        - apply Nat.eqb_eq in Heq. inversion Hx; subst x x'.
          split; [exact Hl|]. rewrite length_app. cbn [length]. split; [lia|].
          rewrite <- (Nat.add_0_r (length h)) at 1. rewrite deref_app_r.
          now rewrite deref_app_l by lia.
        - now apply (memo_ok_extend N h [deref h l] memo HN Hmemo). }
      destruct (IH _ _ _ _ _ HN1 Hvalid Hmemo1 Hrec) as [Hfresh Hmap].
      split.
      * apply Forall_cons. split; [|exact Hfresh].
        rewrite !length_app. cbn [length]. lia.
      * cbn [map]. rewrite Hmap. f_equal.
        -- rewrite <- app_assoc. rewrite <- (Nat.add_0_r (length h)) at 1.
           now rewrite deref_app_r.
        -- apply map_ext_in. intros x Hx. apply deref_app_l.
           rewrite List.Forall_forall in Hvalid. specialize (Hvalid x Hx). cbv beta in Hvalid. lia.
Qed.

(** A deep copy of a bunch whose members lie below [N]: the copy's members
    are new objects, at or above [N], that hold the state of the original
    members, and the objects that existed before are as they were. *)
Lemma deepcopy_spec (N : nat) (self copy : Bunch) (h h' : heap) :
  N <= length h ->
  Forall (fun l => l < N) (bunch self) ->
  deepcopy self h = (copy, h') ->
  (exists e, h' = h ++ e) /\
  Forall (fun l' => N <= l' < length h') (bunch copy) /\
  members h' copy = members h self.
Proof.
  intros HN Hvalid Hrun. unfold deepcopy in Hrun.
  destruct (deepcopy_members (bunch self) [] h) as [[r memo'] h1] eqn:Hrec.
  inversion Hrun; subst. clear Hrun. cbn [set_bunch bunch]. unfold members. cbn [bunch].
  split; [eapply deepcopy_members_extends, Hrec|].
  eapply deepcopy_members_spec; [exact HN | exact Hvalid | | exact Hrec].
  intros l l' Hget. discriminate.
Qed.

(** ** Frames of the in-place loops *)

Lemma for_particles_frame (step : Particle -> exn * Particle + Particle) (ls : list loc) :
  forall h,
    length (fst (for_particles step ls h)) = length h /\
    (forall l, l ∉ ls -> deref (fst (for_particles step ls h)) l = deref h l).
Proof.
  induction ls as [|x ls IH]; intros h; cbn [for_particles].
  - split; [reflexivity | intros; reflexivity].
  - destruct (step (deref h x)) as [[e p]|p]; cbn [fst].
    + split; [apply length_store|]. intros l Hl.
      apply not_elem_of_cons in Hl. destruct Hl as [Hne _].
      apply deref_store_ne. congruence.
    + destruct (IH (store x p h)) as [Hlen Hframe]. split.
      * now rewrite Hlen, length_store.
      * intros l Hl. apply not_elem_of_cons in Hl. destruct Hl as [Hne Hl].
        rewrite (Hframe l Hl). apply deref_store_ne. congruence.
Qed.

Lemma write_all_frame (ls : list loc) :
  forall ps h,
    length (write_all ls ps h) = length h /\
    (forall l, l ∉ ls -> deref (write_all ls ps h) l = deref h l).
Proof.
  induction ls as [|x ls IH]; intros ps h; cbn [write_all].
  - split; [reflexivity | intros; reflexivity].
  - destruct ps as [|p ps].
    + split; [reflexivity | intros; reflexivity].
    + destruct (IH ps (store x p h)) as [Hlen Hframe]. split.
      * now rewrite Hlen, length_store.
      * intros l Hl. apply not_elem_of_cons in Hl. destruct Hl as [Hne Hl].
        rewrite (Hframe l Hl). apply deref_store_ne. congruence.
Qed.

Lemma update_frame `{ParticleOps} (self : Bunch) (deltaT : float) (field : EMField)
    (time : float) (set_method : Z) (h : heap) :
  length (after (update self deltaT field time set_method h)) = length h /\
  (forall l, l ∉ bunch self ->
     deref (after (update self deltaT field time set_method h)) l = deref h l).
Proof.
  unfold update.
  repeat match goal with |- context [if ?b then _ else _] => destruct b end;
    cbn [updated after]; apply for_particles_frame.
Qed.

(** ** The snapshots of the simulation loop *)

(** The members of a bunch holding the same objects, none of them written,
    read the same in both stores. *)
Lemma members_frame (h h' : heap) (d : Bunch) :
  (forall l, l ∈ bunch d -> deref h' l = deref h l) -> members h' d = members h d.
Proof.
  intros Hsame. unfold members. apply map_ext_in. intros l Hl.
  apply Hsame. now apply list_elem_of_In.
Qed.

Section Loop.

Context `{ParticleOps} `{FieldOps}.
Variables (protons : Bunch) (field : EMField) (N : nat).
Hypothesis live_below : Forall (fun l => l < N) (bunch protons).

Lemma live_not_snapshot (s : Sim) (d : Bunch) (l : loc) :
  recorded protons N s -> d ∈ Data s -> l ∈ bunch d -> l ∉ bunch protons.
Proof.
  intros (_ & Hsnap & _) Hd Hl Hlive.
  rewrite Forall_forall in Hsnap. specialize (Hsnap d Hd).
  rewrite Forall_forall in Hsnap. specialize (Hsnap l Hl).
  pose proof live_below as Hbelow. rewrite Forall_forall in Hbelow.
  specialize (Hbelow l Hlive). cbv beta in Hbelow, Hsnap. lia.
Qed.

Lemma loop_body_recorded (s s' : Sim) :
  recorded protons N s -> loop_body protons field s = Ret s' -> recorded protons N s' /\ keeps s s'.
Proof.
  intros Hrec Hrun. pose proof Hrec as (HN & Hsnap & _).
  unfold loop_body in Hrun.
  set (dt := adaptiveStep (store_of s) protons deltaT0 field) in *.
  set (time := PrimFloat.add (time_of s) dt) in *.
  destruct (getAcceleration field (members (store_of s) protons) time dt) as [e|ps];
    [discriminate|].
  set (h1 := write_all (bunch protons) ps (store_of s)) in *.
  set (u := update protons dt field time method h1) in *.
  destruct (raised u); [discriminate|].
  destruct (deepcopy protons (after u)) as [temp_bunch h2] eqn:Hcopy.
  inversion Hrun; subst s'. clear Hrun. unfold recorded, keeps. cbn [store_of Data].
  destruct (write_all_frame (bunch protons) ps (store_of s)) as [Hlen1 Hframe1].
  fold h1 in Hlen1, Hframe1.
  destruct (update_frame protons dt field time method h1) as [Hlenu Hframeu].
  fold u in Hlenu, Hframeu.
  assert (HNu : N <= length (after u)) by lia.
  destruct (deepcopy_spec N protons temp_bunch (after u) h2 HNu live_below Hcopy)
    as ([e ->] & Hfresh & Hview).
  (* an object that is not a live particle is as it was before the step *)
  assert (Hold : forall l, l < length (store_of s) -> l ∉ bunch protons ->
                   deref (after u ++ e) l = deref (store_of s) l).
  { intros l Hl Hnot. rewrite deref_app_l by lia.
    now rewrite (Hframeu l Hnot), (Hframe1 l Hnot). }
  assert (Hkept : Forall (fun d => members (after u ++ e) d = members (store_of s) d)
                         (Data s)).
  { apply Forall_forall. intros d Hd. apply members_frame. intros l Hl.
    apply Hold.
    - rewrite Forall_forall in Hsnap. specialize (Hsnap d Hd).
      rewrite Forall_forall in Hsnap. specialize (Hsnap l Hl). cbv beta in Hsnap. lia.
    - eapply live_not_snapshot; eassumption. }
  split; [split; [|split] | split].
  - rewrite length_app. lia.
  - apply Forall_app. split.
    + eapply Forall_impl; [exact Hsnap|]. intros d Hd. cbv beta in Hd.
      eapply Forall_impl; [exact Hd|]. intros l Hl. cbv beta in Hl.
      rewrite length_app. lia.
    + apply Forall_singleton. exact Hfresh.
  - exists temp_bunch. split; [apply last_snoc|].
    rewrite Hview. symmetry. apply members_frame. intros l Hl.
    apply deref_app_l. pose proof live_below as Hbelow.
    rewrite Forall_forall in Hbelow. specialize (Hbelow l Hl). cbv beta in Hbelow. lia.
  - now exists [temp_bunch].
  - exact Hkept.
Qed.

Lemma keeps_refl (s : Sim) : keeps s s.
Proof.
  split; [exists []; now rewrite app_nil_r|]. apply Forall_forall. intros; reflexivity.
Qed.

Lemma keeps_trans (s1 s2 s3 : Sim) : keeps s1 s2 -> keeps s2 s3 -> keeps s1 s3.
Proof.
  intros [[m12 H12] Hv12] [[m23 H23] Hv23]. split.
  - exists (m12 ++ m23). now rewrite H23, H12, app_assoc.
  - apply Forall_forall. intros d Hd.
    rewrite Forall_forall in Hv12, Hv23.
    rewrite <- (Hv12 d Hd). apply Hv23. rewrite H12. apply elem_of_app. now left.
Qed.

Lemma iterations_recorded (n : nat) :
  forall s s', recorded protons N s -> iterations n protons field s = Ret s' ->
               recorded protons N s' /\ keeps s s'.
Proof.
  induction n as [|n IH]; intros s s' Hrec Hrun; cbn [iterations] in Hrun.
  - inversion Hrun; subst. split; [exact Hrec | apply keeps_refl].
  - destruct (PrimFloat.leb (time_of s) duration).
    + destruct (loop_body protons field s) as [s1| |] eqn:Hbody; cbn in Hrun;
        try discriminate.
      destruct (loop_body_recorded s s1 Hrec Hbody) as [Hrec1 Hkeep1].
      destruct (IH s1 s' Hrec1 Hrun) as [Hrec' Hkeep'].
      split; [exact Hrec' | eapply keeps_trans; eassumption].
    + inversion Hrun; subst. split; [exact Hrec | apply keeps_refl].
Qed.

End Loop.

Lemma initial_recorded (protons : Bunch) (h : heap) :
  Forall (fun l => l < length h) (bunch protons) ->
  recorded protons (length h) (initial protons h).
Proof.
  intros Hlive. unfold initial.
  destruct (deepcopy protons h) as [inital_bunch h'] eqn:Hcopy.
  destruct (deepcopy_spec (length h) protons inital_bunch h h' (le_n _) Hlive Hcopy)
    as ([e ->] & Hfresh & Hview).
  unfold recorded. cbn [store_of Data]. split; [rewrite length_app; lia|]. split.
  - apply Forall_singleton. exact Hfresh.
  - exists inital_bunch. split; [reflexivity|]. rewrite Hview. symmetry.
    apply members_frame. intros l Hl. apply deref_app_l.
    rewrite Forall_forall in Hlive. exact (Hlive l Hl).
Qed.

(** C9: every snapshot in [Data] is a copy of its own.  At any point [s1]
    of the run the snapshot taken last reads as the live bunch does; and
    whatever the loop does afterwards, up to any later point [s2], the
    snapshots recorded by [s1] are still there, read exactly as they did,
    and share no particle object with the live bunch. *)
Theorem snapshots_are_independent `{ParticleOps} `{FieldOps} (protons : Bunch)
    (field : EMField) (h : heap) (n m : nat) (s1 s2 : Sim) :
  Forall (fun l => l < length h) (bunch protons) ->
  iterations n protons field (initial protons h) = Ret s1 ->
  iterations m protons field s1 = Ret s2 ->
  (exists d, last (Data s1) = Some d /\
             members (store_of s1) d = members (store_of s1) protons) /\
  (exists more, Data s2 = Data s1 ++ more) /\
  Forall (fun d => members (store_of s2) d = members (store_of s1) d /\
                   (forall l, In l (bunch d) -> ~ In l (bunch protons)))
         (Data s1).
Proof.
  intros Hlive Hrun1 Hrun2.
  destruct (iterations_recorded protons field (length h) Hlive n _ s1
              (initial_recorded protons h Hlive) Hrun1) as [Hrec1 _].
  destruct (iterations_recorded protons field (length h) Hlive m s1 s2 Hrec1 Hrun2)
    as [_ [Hmore Hkept]].
  split; [exact (proj2 (proj2 Hrec1))|]. split; [exact Hmore|].
  apply Forall_forall. intros d Hd. rewrite Forall_forall in Hkept.
  split; [exact (Hkept d Hd)|].
  intros l Hl Hl'. apply list_elem_of_In in Hl, Hl'.
  exact (live_not_snapshot protons (length h) Hlive s1 d l Hrec1 Hd Hl Hl').
Qed.

(** Three runs of the loop body on two protons: the snapshot taken by the
    first run is read unchanged after the two others. *)
Lemma snapshots_are_independent_witness :
  exists s1 s2,
    @iterations Demo.particle_ops Demo.field_ops 1 Demo.pair Demo.field
                (initial Demo.pair Demo.h_near) = Ret s1 /\
    @iterations Demo.particle_ops Demo.field_ops 2 Demo.pair Demo.field s1 = Ret s2 /\
    length (Data s1) = 2 /\ length (Data s2) = 4 /\
    Forall (fun d => members (store_of s2) d = members (store_of s1) d /\
                     (forall l, In l (bunch d) -> ~ In l (bunch Demo.pair)))
           (Data s1).
Proof.
  eexists _, _. split; [vm_compute; reflexivity|]. split; [vm_compute; reflexivity|].
  split; [reflexivity|]. split; [reflexivity|].
  refine (proj2 (proj2 (@snapshots_are_independent Demo.particle_ops Demo.field_ops
            Demo.pair Demo.field Demo.h_near 1 2 _ _ _ _ _))).
  - repeat constructor.
  - vm_compute. reflexivity.
  - vm_compute. reflexivity.
Defined.

(** The live protons did change in the meantime. *)
Example live_bunch_moves :
  exists s,
    @iterations Demo.particle_ops Demo.field_ops 2 Demo.pair Demo.field
                (initial Demo.pair Demo.h_near) = Ret s /\
    PrimFloat.eqb (vx (velocity (deref (store_of s) 0)))
                  (vx (velocity (deref Demo.h_near 0))) = false.
Proof. eexists. split; vm_compute; reflexivity. Qed.

(** ** The loop of the script and its iterations *)

(** What the script's loop returns is the state after as many iterations
    as it ran. *)
Lemma simulation_iterations `{ParticleOps} `{FieldOps} (fuel : nat) (protons : Bunch)
    (field : EMField) :
  forall s s', simulation fuel protons field s = Ret s' ->
               iterations fuel protons field s = Ret s' /\
               PrimFloat.leb (time_of s') duration = false.
Proof.
  induction fuel as [|fuel IH]; intros s s' Hrun; cbn [simulation] in Hrun; [discriminate|].
  cbn [iterations]. destruct (PrimFloat.leb (time_of s) duration) eqn:Hguard.
  - destruct (loop_body protons field s) as [s1| |]; cbn in Hrun |- *; try discriminate.
    now apply IH.
  - inversion Hrun; subst. now split.
Qed.

(** The constants of the script, as Python evaluates them. *)
Example duration_value : duration = 0x1.3f702d649225dp-19%float.
Proof. reflexivity. Qed.

Example deltaT_value : deltaT0 = 0x1.5fd7fe1796495p-37%float.
Proof. reflexivity. Qed.

(** * Further properties *)

(** ** More on combining *)

Lemma deepcopy_members_length (ls : list loc) :
  forall memo h r memo' h',
    deepcopy_members ls memo h = (r, memo', h') -> length r = length ls.
Proof.
  induction ls as [|l ls IH]; intros memo h r memo' h' Hrun; cbn [deepcopy_members] in Hrun.
  - now inversion Hrun.
  - destruct (memo_get l memo) as [l'|].
    + destruct (deepcopy_members ls memo h) as [[r1 memo1] h1] eqn:Hrec.
      inversion Hrun; subst. cbn [length]. f_equal. eapply IH, Hrec.
    + unfold alloc in Hrun.
      destruct (deepcopy_members ls _ (h ++ [deref h l])) as [[r1 memo1] h1] eqn:Hrec.
      inversion Hrun; subst. cbn [length]. f_equal. eapply IH, Hrec.
Qed.

(** Whatever [__add__] returns has the attributes that the code gives it:
    the class and spread of [self], the sum of the counts, no average
    kinetic energy, and as members as many objects as [self] has followed
    by the members of [other] themselves. *)
Lemma add_returns (self other new_bunch : Bunch) (h h' : heap) :
  __add__ self other h = Ret (new_bunch, h') ->
  exists copies,
    length copies = length (bunch self) /\
    new_bunch = mkBunch (mro self) None (bunch_number self + bunch_number other)
                        (positionSigma self) (copies ++ bunch other)
                        ("combined " ++ bunchName other)%string.
Proof.
  intros Hrun. unfold __add__ in Hrun.
  destruct (negb (isinstance other (class_of self))); [discriminate|].
  unfold deepcopy in Hrun.
  destruct (deepcopy_members (bunch self) [] h) as [[r memo'] h1] eqn:Hcopy.
  cbn [set_bunch set_bunch_number set_bunchName del_average_kinetic_energy
       bunch average_kinetic_energy bunch_number mro positionSigma bunchName] in Hrun.
  destruct (average_kinetic_energy self); [|discriminate].
  destruct (rename_members _ _ _) as [h2| |]; cbn in Hrun; try discriminate.
  inversion Hrun; subst. exists r. split; [|reflexivity].
  eapply deepcopy_members_length, Hcopy.
Qed.

(** X1: combining keeps the invariant that the particle count is the
    number of members: when it holds of both operands it holds of the
    result, which has as many members as the two operands together. *)
Theorem add_keeps_count (self other new_bunch : Bunch) (h h' : heap) :
  __add__ self other h = Ret (new_bunch, h') ->
  bunch_number self = Z.of_nat (length (bunch self)) ->
  bunch_number other = Z.of_nat (length (bunch other)) ->
  length (bunch new_bunch) = length (bunch self) + length (bunch other) /\
  bunch_number new_bunch = Z.of_nat (length (bunch new_bunch)).
Proof.
  intros Hrun HA HB. destruct (add_returns _ _ _ _ _ Hrun) as (copies & Hlen & ->).
  cbn [bunch bunch_number]. rewrite length_app, Hlen. split; [reflexivity|]. lia.
Qed.

Lemma add_keeps_count_witness :
  exists new_bunch h',
    __add__ Demo.bunchA Demo.bunchB Demo.h3 = Ret (new_bunch, h') /\
    length (bunch new_bunch) = 2 /\ bunch_number new_bunch = 2%Z.
Proof.
  eexists _, _. split; [vm_compute; reflexivity|].
  exact (add_keeps_count Demo.bunchA Demo.bunchB _ Demo.h3 _
           ltac:(vm_compute; reflexivity) eq_refl eq_refl).
Defined.

(** X2: a combined bunch cannot be combined on the left: once [a + b]
    has returned, [(a + b) + c] raises the attribute error for every [c]
    that passes the class test, in every store. *)
Theorem add_left_of_combined (a b ab c : Bunch) (h h1 h2 : heap) :
  __add__ a b h = Ret (ab, h1) ->
  isinstance c (class_of ab) = true ->
  __add__ ab c h2 = Raise (AttributeError "average_kinetic_energy").
Proof.
  intros Hrun Hinst. destruct (add_returns _ _ _ _ _ Hrun) as (copies & _ & Hab).
  unfold __add__. rewrite Hinst. cbn [negb]. unfold deepcopy.
  destruct (deepcopy_members (bunch ab) [] h2) as [[r memo'] h3].
  cbn [set_bunch set_bunch_number set_bunchName del_average_kinetic_energy
       bunch average_kinetic_energy bunch_number mro positionSigma bunchName].
  now rewrite Hab.
Qed.

Lemma add_left_of_combined_witness :
  exists ab h1,
    __add__ Demo.bunchA Demo.bunchB Demo.h3 = Ret (ab, h1) /\
    __add__ ab Demo.bunchC h1 = Raise (AttributeError "average_kinetic_energy").
Proof.
  eexists _, _. split; [vm_compute; reflexivity|].
  eapply (add_left_of_combined Demo.bunchA Demo.bunchB _ Demo.bunchC Demo.h3);
    vm_compute; reflexivity.
Defined.

(** The store after a combine, object by object. *)
Lemma add_store (self other : Bunch) (h : heap) :
  isinstance other (class_of self) = true ->
  is_Some (average_kinetic_energy self) ->
  Forall (fun l => l < length h) (bunch self) ->
  Forall (fun l => l < length h) (bunch other) ->
  NoDup (bunch self) ->
  NoDup (bunch other) ->
  exists new_bunch h',
    __add__ self other h = Ret (new_bunch, h') /\
    bunch new_bunch = seq (length h) (length (bunch self)) ++ bunch other /\
    length h' = length h + length (bunch self) /\
    (forall i l, bunch self !! i = Some l ->
       deref h' (length h + i) = renamed i (deref h l)) /\
    (forall j l, bunch other !! j = Some l ->
       deref h' l = renamed (length (bunch self) + j) (deref h l)) /\
    (forall l, l < length h -> l ∉ bunch other -> deref h' l = deref h l).
Proof.
  intros Hinst [mu Hmu] HvalidA HvalidB HnodupA HnodupB.
  unfold __add__. rewrite Hinst. cbn [negb].
  rewrite (deepcopy_distinct self h HvalidA HnodupA).
  cbn [set_bunch set_bunch_number set_bunchName del_average_kinetic_energy
       bunch average_kinetic_energy bunch_number mro positionSigma bunchName].
  rewrite Hmu.
  set (n := length (bunch self)).
  set (all := seq (length h) n ++ bunch other).
  set (h1 := h ++ members h self).
  assert (Hlen1 : length h1 = length h + n).
  { unfold h1, members. now rewrite length_app, length_map. }
  pose proof HvalidB as HvB. rewrite List.Forall_forall in HvB.
  destruct (rename_members_distinct all [] h1) as (h' & Hrun & Hlen & Hframe & Hnames).
  { cbn [app]. unfold all. apply NoDup_app. split; [apply NoDup_seq|]. split; [|exact HnodupB].
    intros x Hx Hx'. apply elem_of_seq in Hx. apply list_elem_of_In in Hx'.
    specialize (HvB x Hx'). cbv beta in HvB. lia. }
  { unfold all. apply Forall_app. split.
    - apply List.Forall_forall. intros x Hx. apply in_seq in Hx. lia.
    - eapply Forall_impl; [exact HvalidB|]. intros x Hx. cbv beta in Hx. lia. }
  cbn [app] in Hrun. rewrite Hrun. cbn [mbind outcome_bind].
  eexists _, h'. split; [reflexivity|]. cbn [bunch]. fold n all.
  split; [reflexivity|]. split; [lia|]. split; [|split].
  - intros i l Hl.
    assert (Hi : i < n) by (eapply lookup_lt_Some, Hl).
    assert (Hall : all !! i = Some (length h + i)).
    { unfold all. rewrite lookup_app_l by (now rewrite length_seq). now apply lookup_seq_lt. }
    rewrite (Hnames i _ Hall). cbn [length]. f_equal.
    unfold h1. rewrite deref_app_r. unfold deref, members.
    apply list_lookup_total_correct. rewrite list_lookup_fmap, Hl. reflexivity.
  - intros j l Hl.
    assert (Hall : all !! (n + j) = Some l).
    { unfold all. rewrite lookup_app_r by (rewrite length_seq; lia).
      rewrite length_seq. now replace (n + j - n) with j by lia. }
    rewrite (Hnames (n + j) _ Hall). cbn [length]. f_equal.
    unfold h1. apply deref_app_l. apply HvB.
    apply list_elem_of_In. eapply list_elem_of_lookup_2, Hl.
  - intros l Hl Hnot. rewrite Hframe.
    + unfold h1. now apply deref_app_l.
    + unfold all. intros Hin. apply elem_of_app in Hin. destruct Hin as [Hin|Hin].
      * apply elem_of_seq in Hin. lia.
      * contradiction.
Qed.

(** X3: combining allocates one new object per member of [self] and
    writes nowhere else than into these and into the members of [other]:
    every object that was there before and is not a member of [other] is
    as it was; so [self] reads unchanged when it shares no member with
    [other]. *)
Theorem add_frame (self other : Bunch) (h : heap) :
  isinstance other (class_of self) = true ->
  is_Some (average_kinetic_energy self) ->
  Forall (fun l => l < length h) (bunch self) ->
  Forall (fun l => l < length h) (bunch other) ->
  NoDup (bunch self) ->
  NoDup (bunch other) ->
  exists new_bunch h',
    __add__ self other h = Ret (new_bunch, h') /\
    length h' = length h + length (bunch self) /\
    (forall l, l < length h -> ~ In l (bunch other) -> deref h' l = deref h l) /\
    ((forall l, In l (bunch self) -> ~ In l (bunch other)) ->
     members h' self = members h self).
Proof.
  intros Hinst Hattr HvalidA HvalidB HnodupA HnodupB.
  destruct (add_store self other h Hinst Hattr HvalidA HvalidB HnodupA HnodupB)
    as (nb & h' & Hrun & _ & Hlen & _ & _ & Hframe).
  exists nb, h'. split; [exact Hrun|]. split; [exact Hlen|].
  assert (Hold : forall l, l < length h -> ~ In l (bunch other) -> deref h' l = deref h l).
  { intros l Hl Hnot. apply Hframe; [exact Hl|]. now rewrite list_elem_of_In. }
  split; [exact Hold|].
  intros Hdisj. apply members_frame. intros l Hl. apply list_elem_of_In in Hl.
  apply Hold; [|now apply Hdisj].
  rewrite List.Forall_forall in HvalidA. exact (HvalidA l Hl).
Qed.

Lemma add_frame_witness :
  exists new_bunch h',
    __add__ Demo.bunchA Demo.bunchB Demo.h3 = Ret (new_bunch, h') /\
    length h' = 4 /\
    members h' Demo.bunchA = members Demo.h3 Demo.bunchA /\
    members h' Demo.bunchC = members Demo.h3 Demo.bunchC.
Proof.
  destruct (add_frame Demo.bunchA Demo.bunchB Demo.h3)
    as (nb & h' & Hrun & Hlen & Hold & Hself).
  - vm_compute. reflexivity.
  - exists 120e6%float. reflexivity.
  - repeat constructor.
  - repeat constructor.
  - apply NoDup_singleton.
  - apply NoDup_singleton.
  - exists nb, h'. split; [exact Hrun|]. split; [exact Hlen|]. split.
    + apply Hself. intros l [<- | []] [Heq | []]. discriminate.
    + unfold members. cbn [Demo.bunchC bunch map]. f_equal. apply Hold.
      * cbn. lia.
      * intros [Heq | []]. discriminate.
Defined.

(** The members of the result of a combine, in order: those of [self]
    then those of [other], each renamed after its position. *)
Lemma add_members (self other : Bunch) (h : heap) :
  isinstance other (class_of self) = true ->
  is_Some (average_kinetic_energy self) ->
  Forall (fun l => l < length h) (bunch self) ->
  Forall (fun l => l < length h) (bunch other) ->
  NoDup (bunch self) ->
  NoDup (bunch other) ->
  exists new_bunch h',
    __add__ self other h = Ret (new_bunch, h') /\
    length (members h' new_bunch) = length (members h self ++ members h other) /\
    (forall i p, (members h self ++ members h other) !! i = Some p ->
       members h' new_bunch !! i = Some (renamed i p)) /\
    (forall j q, members h other !! j = Some q ->
       members h' other !! j = Some (renamed (length (bunch self) + j) q)) /\
    (forall l, In l (bunch other) -> In l (bunch new_bunch)).
Proof.
  intros Hinst Hattr HvalidA HvalidB HnodupA HnodupB.
  destruct (add_store self other h Hinst Hattr HvalidA HvalidB HnodupA HnodupB)
    as (nb & h' & Hrun & Hbunch & Hlen & Hcopies & Hothers & _).
  exists nb, h'. split; [exact Hrun|]. unfold members. rewrite Hbunch.
  split; [now rewrite !length_map, !length_app, !length_map, length_seq|]. split; [|split].
  - intros i p Hp. rewrite list_lookup_fmap.
    destruct (decide (i < length (bunch self))) as [Hi|Hi].
    + rewrite lookup_app_l in Hp by (now rewrite length_map).
      rewrite list_lookup_fmap in Hp.
      destruct (bunch self !! i) as [l|] eqn:Hl; [|discriminate].
      cbn in Hp. inversion Hp; subst p.
      rewrite lookup_app_l by (now rewrite length_seq).
      rewrite lookup_seq_lt by exact Hi. cbn. f_equal. now apply Hcopies.
    + rewrite lookup_app_r in Hp by (rewrite length_map; lia).
      rewrite length_map, list_lookup_fmap in Hp.
      destruct (bunch other !! (i - length (bunch self))) as [l|] eqn:Hl; [|discriminate].
      cbn in Hp. inversion Hp; subst p.
      rewrite lookup_app_r by (rewrite length_seq; lia). rewrite length_seq, Hl. cbn.
      f_equal. rewrite (Hothers _ _ Hl). f_equal. lia.
  - intros j q Hq. rewrite list_lookup_fmap in Hq |- *.
    destruct (bunch other !! j) as [l|] eqn:Hl; [|discriminate].
    cbn in Hq |- *. inversion Hq; subst q. f_equal. now apply Hothers.
  - intros l Hl. apply in_or_app. now right.
Qed.

(** X4: the members of [other] are taken into the combined bunch as they
    are, the same objects, and renamed there: after [self + other] the
    member of [other] at position [j] reads with the name that its position
    in the combined bunch gives it. *)
Theorem add_renames_other (self other : Bunch) (h : heap) :
  isinstance other (class_of self) = true ->
  is_Some (average_kinetic_energy self) ->
  Forall (fun l => l < length h) (bunch self) ->
  Forall (fun l => l < length h) (bunch other) ->
  NoDup (bunch self) ->
  NoDup (bunch other) ->
  exists new_bunch h',
    __add__ self other h = Ret (new_bunch, h') /\
    (forall l, In l (bunch other) -> In l (bunch new_bunch)) /\
    (forall j q, members h other !! j = Some q ->
       members h' other !! j =
       Some (set_name (drop_last (name q) ++ str (length (bunch self) + j + 1))%string q)).
Proof.
  intros Hinst Hattr HvalidA HvalidB HnodupA HnodupB.
  destruct (add_members self other h Hinst Hattr HvalidA HvalidB HnodupA HnodupB)
    as (nb & h' & Hrun & _ & _ & Hother & Hin).
  exists nb, h'. split; [exact Hrun|]. split; [exact Hin|]. exact Hother.
Qed.

(** A bunch combined with itself: its own member is renamed. *)
Lemma add_renames_other_witness :
  exists new_bunch h',
    __add__ Demo.bunchA Demo.bunchA Demo.h3 = Ret (new_bunch, h') /\
    map name (members Demo.h3 Demo.bunchA) = ["proton 1"]%string /\
    map name (members h' Demo.bunchA) = ["proton 2"]%string.
Proof.
  destruct (add_renames_other Demo.bunchA Demo.bunchA Demo.h3)
    as (nb & h' & Hrun & _ & Hnames).
  - vm_compute. reflexivity.
  - exists 120e6%float. reflexivity.
  - repeat constructor.
  - repeat constructor.
  - apply NoDup_singleton.
  - apply NoDup_singleton.
  - exists nb, h'. split; [exact Hrun|]. split; [reflexivity|].
    specialize (Hnames 0 _ eq_refl).
    unfold members in Hnames |- *. cbn [Demo.bunchA bunch map] in Hnames |- *.
    cbn [lookup list_lookup] in Hnames. inversion Hnames as [Hq]. rewrite Hq. reflexivity.
Defined.

Lemma drop_last_snoc (s : string) (a : ascii) :
  drop_last (s ++ String a EmptyString) = s.
Proof.
  induction s as [|b s IH]; [reflexivity|].
  cbn [String.append drop_last]. rewrite IH.
  destruct s; reflexivity.
Qed.

(** X5: a member whose name is a prefix followed by one character is
    given, by a combine, that prefix followed by its position (from 1)
    among the members of [self] followed by those of [other]; its position,
    velocity and acceleration are kept. *)
Theorem add_renumbers (self other : Bunch) (h : heap) :
  isinstance other (class_of self) = true ->
  is_Some (average_kinetic_energy self) ->
  Forall (fun l => l < length h) (bunch self) ->
  Forall (fun l => l < length h) (bunch other) ->
  NoDup (bunch self) ->
  NoDup (bunch other) ->
  exists new_bunch h',
    __add__ self other h = Ret (new_bunch, h') /\
    (forall i p prefix a,
       (members h self ++ members h other) !! i = Some p ->
       name p = (prefix ++ String a EmptyString)%string ->
       members h' new_bunch !! i =
       Some (mkParticle (prefix ++ str (i + 1))%string
                        (position p) (velocity p) (acceleration p))).
Proof.
  intros Hinst Hattr HvalidA HvalidB HnodupA HnodupB.
  destruct (add_members self other h Hinst Hattr HvalidA HvalidB HnodupA HnodupB)
    as (nb & h' & Hrun & _ & Hmem & _).
  exists nb, h'. split; [exact Hrun|].
  intros i p prefix a Hp Hname. rewrite (Hmem i p Hp).
  unfold renamed, set_name. now rewrite Hname, drop_last_snoc.
Qed.

Lemma add_renumbers_witness :
  exists new_bunch h',
    __add__ Demo.bunchA Demo.bunchB Demo.h3 = Ret (new_bunch, h') /\
    members h' new_bunch !! 1 =
    Some (mkParticle "proton 2" (0.02%float, 0%float, 0%float) Demo.zero3 Demo.zero3).
Proof.
  destruct (add_renumbers Demo.bunchA Demo.bunchB Demo.h3) as (nb & h' & Hrun & Hnames).
  - vm_compute. reflexivity.
  - exists 120e6%float. reflexivity.
  - repeat constructor.
  - repeat constructor.
  - apply NoDup_singleton.
  - apply NoDup_singleton.
  - exists nb, h'. split; [exact Hrun|].
    exact (Hnames 1 (Demo.at_x "proton 1" 0.02%float) "proton "%string "1"%char
             eq_refl eq_refl).
Defined.

Lemma existsb_influence_positions (field : EMField) (l1 l2 : list Particle) :
  map position l1 = map position l2 ->
  existsb (electric_influence field) l1 = existsb (electric_influence field) l2.
Proof.
  revert l2. induction l1 as [|p l1 IH]; intros [|q l2] Heq; try discriminate;
    [reflexivity|].
  cbn [map] in Heq. inversion Heq as [[Hpos Hrest]].
  cbn [existsb]. rewrite (IH l2 Hrest). unfold electric_influence. now rewrite Hpos.
Qed.

(** X6: the step of a combined bunch is shortened exactly when a member
    of one of the two operands, where it stood before the combine, is
    under the influence of the electric field. *)
Theorem add_then_adaptiveStep (self other : Bunch) (h : heap) (deltaT : float)
    (field : EMField) :
  isinstance other (class_of self) = true ->
  is_Some (average_kinetic_energy self) ->
  Forall (fun l => l < length h) (bunch self) ->
  Forall (fun l => l < length h) (bunch other) ->
  NoDup (bunch self) ->
  NoDup (bunch other) ->
  exists new_bunch h',
    __add__ self other h = Ret (new_bunch, h') /\
    adaptiveStep h' new_bunch deltaT field =
    if existsb (electric_influence field) (members h self) ||
       existsb (electric_influence field) (members h other)
    then PrimFloat.mul deltaT 0.01%float else deltaT.
Proof.
  intros Hinst Hattr HvalidA HvalidB HnodupA HnodupB.
  destruct (add_members self other h Hinst Hattr HvalidA HvalidB HnodupA HnodupB)
    as (nb & h' & Hrun & Hlen & Hmem & _).
  exists nb, h'. split; [exact Hrun|]. unfold adaptiveStep.
  rewrite <- existsb_app.
  rewrite (existsb_influence_positions field (members h' nb)
             (members h self ++ members h other)); [reflexivity|].
  apply list_eq. intros i. rewrite !list_lookup_fmap.
  destruct ((members h self ++ members h other) !! i) as [p|] eqn:Hp.
  - now rewrite (Hmem i p Hp).
  - apply lookup_ge_None in Hp. rewrite <- Hlen in Hp.
    apply lookup_ge_None in Hp. now rewrite Hp.
Qed.

(** Neither proton of [bunchA] and [bunchB] alone is far from the field;
    combined with a proton far away, the step is still shortened. *)
Lemma add_then_adaptiveStep_witness :
  exists new_bunch h',
    __add__ Demo.bunchA Demo.bunchB Demo.h3 = Ret (new_bunch, h') /\
    adaptiveStep h' new_bunch deltaT0 Demo.field = PrimFloat.mul deltaT0 0.01%float.
Proof.
  destruct (add_then_adaptiveStep Demo.bunchA Demo.bunchB Demo.h3 deltaT0 Demo.field)
    as (nb & h' & Hrun & Hstep).
  - vm_compute. reflexivity.
  - exists 120e6%float. reflexivity.
  - repeat constructor.
  - repeat constructor.
  - apply NoDup_singleton.
  - apply NoDup_singleton.
  - exists nb, h'. split; [exact Hrun|]. exact Hstep.
Defined.

(** ** More on the integrator dispatch *)

Section UpdateMore.

Context `{ParticleOps}.

Lemma update_integrator (self : Bunch) (deltaT : float) (field : EMField) (time : float)
    (set_method : Z) (h : heap) :
  after (update self deltaT field time set_method h) =
    fst (for_particles (integrator deltaT field time set_method) (bunch self) h) /\
  raised (update self deltaT field time set_method h) =
    snd (for_particles (integrator deltaT field time set_method) (bunch self) h).
Proof.
  unfold update, integrator.
  destruct (set_method =? 0)%Z; [split; reflexivity|].
  destruct (set_method =? 1)%Z; [split; reflexivity|].
  destruct (set_method =? 2)%Z; [split; reflexivity|].
  destruct (set_method =? 3)%Z; split; reflexivity.
Qed.

(** The loop over distinct particles, as far as their steps succeed: the
    particles of [done] are each stepped once, from the state they had
    before the loop, and the loop goes on with [rest]. *)
Lemma for_particles_prefix (step : Particle -> exn * Particle + Particle) (done : list loc) :
  forall rest h,
    NoDup done ->
    Forall (fun l => l < length h) done ->
    (forall l, l ∈ done -> exists q, step (deref h l) = inr q) ->
    exists h1,
      for_particles step (done ++ rest) h = for_particles step rest h1 /\
      length h1 = length h /\
      (forall l, l ∉ done -> deref h1 l = deref h l) /\
      (forall l, l ∈ done -> step (deref h l) = inr (deref h1 l)).
Proof.
  induction done as [|l done IH]; intros rest h Hnodup Hvalid Hok.
  - exists h. cbn [app]. repeat split; try reflexivity.
    intros l Hl. apply elem_of_nil in Hl. contradiction.
  - apply NoDup_cons in Hnodup. destruct Hnodup as [Hnotin Hnodup].
    apply Forall_cons in Hvalid. destruct Hvalid as [Hl Hvalid].
    destruct (Hok l) as [q Hq]; [apply list_elem_of_here|].
    cbn [app for_particles]. rewrite Hq.
    destruct (IH rest (store l q h)) as (h1 & Hrun & Hlen & Hframe & Hstepped).
    + exact Hnodup.
    + eapply Forall_impl; [exact Hvalid|]. intros x Hx. cbv beta in Hx.
      now rewrite length_store.
    + intros x Hx. rewrite deref_store_ne by (intros ->; contradiction).
      apply Hok. now apply list_elem_of_further.
    + exists h1. split; [exact Hrun|]. split; [now rewrite Hlen, length_store|]. split.
      * intros x Hx. apply not_elem_of_cons in Hx. destruct Hx as [Hne Hx].
        rewrite (Hframe x Hx). apply deref_store_ne. congruence.
      * intros x Hx. apply elem_of_cons in Hx. destruct Hx as [-> | Hx].
        -- rewrite (Hframe l Hnotin), deref_store_eq by exact Hl. exact Hq.
        -- specialize (Hstepped x Hx).
           rewrite deref_store_ne in Hstepped by (intros ->; contradiction).
           exact Hstepped.
Qed.

(** X7: when the bunch holds each particle once and the selected
    integrator accepts every member, [update] raises nothing, leaves in
    each member the result of one step from the member's state before the
    call, and leaves every other object, and the number of objects, as they
    were. *)
Theorem update_steps_each_member_once (self : Bunch) (deltaT : float) (field : EMField)
    (time : float) (set_method : Z) (h : heap) :
  NoDup (bunch self) ->
  Forall (fun l => l < length h) (bunch self) ->
  (forall p, In p (members h self) ->
     exists q, integrator deltaT field time set_method p = inr q) ->
  let u := update self deltaT field time set_method h in
  raised u = None /\
  Forall2 (fun p q => integrator deltaT field time set_method p = inr q)
          (members h self) (members (after u) self) /\
  length (after u) = length h /\
  (forall l, ~ In l (bunch self) -> deref (after u) l = deref h l).
Proof.
  intros Hnodup Hvalid Hok u.
  destruct (update_integrator self deltaT field time set_method h) as [Hafter Hraised].
  fold u in Hafter, Hraised.
  destruct (for_particles_prefix (integrator deltaT field time set_method)
              (bunch self) [] h Hnodup Hvalid) as (h1 & Hrun & Hlen & Hframe & Hstepped).
  { intros l Hl. apply Hok. unfold members. apply in_map. now apply list_elem_of_In. }
  rewrite app_nil_r in Hrun. rewrite Hrun in Hafter, Hraised.
  cbn [for_particles fst snd] in Hafter, Hraised. rewrite Hafter.
  split; [exact Hraised|]. split; [|split].
  - unfold members. apply Forall2_fmap, Forall_Forall2_diag.
    apply Forall_forall. intros l Hl. now apply Hstepped.
  - exact Hlen.
  - intros l Hl. apply Hframe. now rewrite list_elem_of_In.
Qed.

(** X8: a failure stops [update] half way.  When the members before
    some member are accepted by the selected integrator and the step of
    that member raises, [update] raises the exception of that member,
    leaves the members before it stepped once, leaves in that member what
    its step wrote before raising, and leaves all the members after it as
    they were. *)
Theorem update_stops_at_first_failure (self : Bunch) (deltaT : float) (field : EMField)
    (time : float) (set_method : Z) (h : heap) (done rest : list loc) (l : loc) (e : exn)
    (left_behind : Particle) :
  bunch self = done ++ l :: rest ->
  NoDup (bunch self) ->
  Forall (fun x => x < length h) (bunch self) ->
  (forall x, In x done ->
     exists q, integrator deltaT field time set_method (deref h x) = inr q) ->
  integrator deltaT field time set_method (deref h l) = inl (e, left_behind) ->
  let u := update self deltaT field time set_method h in
  raised u = Some e /\
  Forall2 (fun p q => integrator deltaT field time set_method p = inr q)
          (map (deref h) done) (map (deref (after u)) done) /\
  deref (after u) l = left_behind /\
  map (deref (after u)) rest = map (deref h) rest.
Proof.
  intros Hsplit Hnodup Hvalid Hok Hfail u.
  destruct (update_integrator self deltaT field time set_method h) as [Hafter Hraised].
  fold u in Hafter, Hraised. rewrite Hsplit in Hafter, Hraised, Hnodup, Hvalid.
  apply NoDup_app in Hnodup. destruct Hnodup as (Hnodup & Hdisj & Htail).
  apply NoDup_cons in Htail. destruct Htail as [Hl_rest _].
  apply Forall_app in Hvalid. destruct Hvalid as [Hvalid Hvalid_tail].
  apply Forall_cons in Hvalid_tail. destruct Hvalid_tail as [Hl_valid _].
  destruct (for_particles_prefix (integrator deltaT field time set_method)
              done (l :: rest) h Hnodup Hvalid) as (h1 & Hrun & Hlen & Hframe & Hstepped).
  { intros x Hx. apply Hok. now apply list_elem_of_In. }
  assert (Hl_done : l ∉ done).
  { intros Hin. apply (Hdisj l Hin). apply list_elem_of_here. }
  assert (Hl : deref h1 l = deref h l) by now apply Hframe.
  rewrite Hrun in Hafter, Hraised. cbn [for_particles] in Hafter, Hraised.
  rewrite Hl, Hfail in Hafter, Hraised. cbn [fst snd] in Hafter, Hraised.
  rewrite Hafter. split; [exact Hraised|]. split; [|split].
  - apply Forall2_fmap, Forall_Forall2_diag.
    apply Forall_forall. intros x Hx.
    rewrite deref_store_ne by (intros ->; contradiction). now apply Hstepped.
  - apply deref_store_eq. lia.
  - apply map_ext_in. intros x Hx.
    rewrite deref_store_ne by (intros ->; apply Hl_rest; now apply list_elem_of_In).
    apply Hframe. intros Hin. apply (Hdisj x Hin).
    apply list_elem_of_further. now apply list_elem_of_In.
Qed.

End UpdateMore.

(** Two protons stepped by Euler's method. *)
Lemma update_steps_each_member_once_witness :
  let u := @update Demo.particle_ops Demo.pair deltaT0 Demo.field 0%float 0 Demo.h_near in
  raised u = None /\ length (after u) = 2.
Proof.
  destruct (@update_steps_each_member_once Demo.particle_ops Demo.pair deltaT0 Demo.field
              0%float 0%Z Demo.h_near) as (Hraised & _ & Hlen & _).
  - repeat constructor; cbn; intros Hin; repeat (apply elem_of_cons in Hin as [Hin|Hin]);
      try discriminate; apply elem_of_nil in Hin; contradiction.
  - repeat constructor.
  - intros p _. eexists. reflexivity.
  - split; [exact Hraised | exact Hlen].
Defined.

(** The step of the second of three protons fails after moving it: the
    first has been stepped, the second is left moved but not accelerated,
    and the third is untouched. *)
Lemma update_stops_at_first_failure_witness :
  let u := @update Demo.picky_ops Demo.trio 1%float Demo.field 0%float 0 Demo.h_trio in
  raised u = Some (StepError "overflow") /\
  deref (after u) 1 =
    mkParticle "proton 2" (2e7%float, 0%float, 0%float) (2e7%float, 0%float, 0%float)
               Demo.zero3 /\
  map (deref (after u)) [2] = map (deref Demo.h_trio) [2].
Proof.
  destruct (@update_stops_at_first_failure Demo.picky_ops Demo.trio 1%float Demo.field
              0%float 0%Z Demo.h_trio [0] [2] 1 (StepError "overflow")
              (mkParticle "proton 2" (2e7%float, 0%float, 0%float)
                          (2e7%float, 0%float, 0%float) Demo.zero3))
    as (Hraised & _ & Hleft & Hkept).
  - reflexivity.
  - repeat constructor; cbn; intros Hin; repeat (apply elem_of_cons in Hin as [Hin|Hin]);
      try discriminate; apply elem_of_nil in Hin; contradiction.
  - repeat constructor.
  - intros x [<- | []]. eexists. vm_compute. reflexivity.
  - vm_compute. reflexivity.
  - split; [exact Hraised|]. split; [exact Hleft | exact Hkept].
Defined.

(** ** More on sampling energies *)

Lemma nth_draws (rng : nat -> float) (loc scale : float) (n : nat) :
  forall k i, i < n -> nth i (draws rng loc scale n k) F.zero = normal_draw rng loc scale (k + i).
Proof.
  induction n as [|n IH]; intros k i Hi; [lia|]. cbn [draws].
  destruct i as [|i]; cbn [nth].
  - now rewrite Nat.add_0_r.
  - rewrite IH by lia. f_equal. lia.
Qed.

(** [list.index] returns a position that holds a value equal to the one
    looked for. *)
Lemma float_index_sound (x : float) (l : list float) :
  forall j, float_index x l = Some j ->
            j < length l /\ PrimFloat.eqb (nth j l F.zero) x = true.
Proof.
  induction l as [|y l IH]; intros j Hj; cbn [float_index] in Hj; [discriminate|].
  destruct (PrimFloat.eqb y x) eqn:Heq.
  - inversion Hj; subst. cbn [length nth]. split; [lia | exact Heq].
  - destruct (float_index x l) as [j'|]; [|discriminate]. cbn in Hj. inversion Hj; subst.
    destruct (IH j' eq_refl) as [Hlt Heq']. cbn [length nth]. split; [lia | exact Heq'].
Qed.

(** It finds any value that the list holds. *)
Lemma float_index_complete (x : float) (l : list float) (i : nat) :
  i < length l -> PrimFloat.eqb (nth i l F.zero) x = true ->
  exists j, float_index x l = Some j.
Proof.
  revert i. induction l as [|y l IH]; intros i Hi Hat; cbn [length] in Hi; [lia|].
  cbn [float_index]. destruct (PrimFloat.eqb y x) eqn:Heq; [now exists 0|].
  destruct i as [|i]; cbn [nth] in Hat; [congruence|].
  destruct (IH i ltac:(lia) Hat) as [j Hj]. exists (S j). now rewrite Hj.
Qed.

Section ResamplingMore.

Variables (rng : nat -> float) (mu sigma : float).

(** A pass keeps every positive sample where it is. *)
Lemma resample_pass_keeps_positive (visit : list nat) :
  forall energies k energies' k' i,
    resample_pass rng mu sigma visit energies k = Ret (energies', k') ->
    F.positive (nth i energies F.zero) = true ->
    nth i energies' F.zero = nth i energies F.zero.
Proof.
  induction visit as [|v visit IH]; intros energies k energies' k' i Hrun Hpos;
    cbn [resample_pass] in Hrun.
  - now inversion Hrun.
  - destruct (PrimFloat.leb (nth v energies F.zero) F.zero) eqn:Hle.
    + unfold np_random_normal in Hrun.
      destruct (PrimFloat.ltb sigma F.zero); [discriminate|]. cbn in Hrun.
      destruct (float_index (nth v energies F.zero) energies) as [j|] eqn:Hj;
        [|discriminate].
      destruct (float_index_sound _ _ _ Hj) as [Hlt Heq].
      assert (Hne : j <> i).
      { intros ->. rewrite (positive_neq_nonpositive _ _ Hpos Hle) in Heq. discriminate. }
      rewrite (IH _ _ _ _ i Hrun); rewrite nth_insert_ne by exact Hne; [reflexivity|exact Hpos].
    + now apply (IH _ _ _ _ i Hrun).
Qed.

Lemma resample_loop_keeps_positive (fuel : nat) :
  forall energies k energies' k' i,
    resample_loop fuel rng mu sigma energies k = Ret (energies', k') ->
    F.positive (nth i energies F.zero) = true ->
    nth i energies' F.zero = nth i energies F.zero.
Proof.
  induction fuel as [|fuel IH]; intros energies k energies' k' i Hrun Hpos;
    cbn [resample_loop] in Hrun; [discriminate|].
  destruct (forallb F.positive energies).
  - now inversion Hrun.
  - destruct (resample_pass rng mu sigma (seq 0 (length energies)) energies k)
      as [[es1 k1]| |] eqn:Hpass; cbn in Hrun; try discriminate.
    pose proof (resample_pass_keeps_positive _ _ _ _ _ i Hpass Hpos) as Hkeep.
    rewrite (IH _ _ _ _ i Hrun); [exact Hkeep|]. now rewrite Hkeep.
Qed.

(** Without a positive draw a pass leaves no positive sample. *)
Hypothesis scale_ok : PrimFloat.ltb sigma F.zero = false.
Hypothesis no_positive_draw : forall k, F.positive (normal_draw rng mu sigma k) = false.

Lemma resample_pass_no_positive (visit : list nat) :
  forall energies k,
    Forall (fun i => i < length energies) visit ->
    Forall (fun e => F.positive e = false) energies ->
    exists energies' k',
      resample_pass rng mu sigma visit energies k = Ret (energies', k') /\
      length energies' = length energies /\
      Forall (fun e => F.positive e = false) energies'.
Proof.
  induction visit as [|v visit IH]; intros energies k Hvisit Hnone; cbn [resample_pass].
  - exists energies, k. split; [reflexivity|]. split; [reflexivity | exact Hnone].
  - apply Forall_cons in Hvisit. destruct Hvisit as [Hv Hvisit].
    destruct (PrimFloat.leb (nth v energies F.zero) F.zero) eqn:Hle.
    + unfold np_random_normal. rewrite scale_ok. cbn [mbind outcome_bind].
      destruct (float_index_complete (nth v energies F.zero) energies v Hv
                  (nonpositive_eqb_refl _ Hle)) as [j Hj].
      rewrite Hj.
      destruct (IH (<[j := normal_draw rng mu sigma k]> energies) (S k))
        as (es' & k' & Hrun & Hlen & Hnone').
      * eapply Forall_impl; [exact Hvisit|]. intros x Hx. cbv beta in Hx.
        now rewrite length_insert.
      * apply Forall_insert; [exact Hnone | apply no_positive_draw].
      * exists es', k'. split; [exact Hrun|]. split; [|exact Hnone'].
        now rewrite Hlen, length_insert.
    + now apply IH.
Qed.

Lemma resample_loop_no_positive (fuel : nat) :
  forall energies k,
    energies <> [] ->
    Forall (fun e => F.positive e = false) energies ->
    resample_loop fuel rng mu sigma energies k = OutOfFuel.
Proof.
  induction fuel as [|fuel IH]; intros energies k Hne Hnone; [reflexivity|].
  cbn [resample_loop].
  assert (Hall : forallb F.positive energies = false).
  { destruct energies as [|e es]; [congruence|]. cbn [forallb].
    apply Forall_cons in Hnone. destruct Hnone as [He _]. cbv beta in He. now rewrite He. }
  rewrite Hall.
  destruct (resample_pass_no_positive (seq 0 (length energies)) energies k)
    as (es' & k' & Hrun & Hlen & Hnone').
  - apply List.Forall_forall. intros i Hi. apply in_seq in Hi. lia.
  - exact Hnone.
  - rewrite Hrun. cbn [mbind outcome_bind]. apply IH; [|exact Hnone'].
    intros ->. destruct energies; [congruence | discriminate].
Qed.

End ResamplingMore.

(** X9: only non-positive samples are redrawn: whenever
    [distributeEnergies] returns, every position whose first draw was
    positive holds that first draw. *)
Theorem distributeEnergies_keeps_positive (self : Bunch) (rng : nat -> float) (mu : float)
    (k fuel : nat) (energies : list float) (k' i : nat) :
  average_kinetic_energy self = Some mu ->
  distributeEnergies self rng k fuel = Ret (energies, k') ->
  i < Z.to_nat (bunch_number self) ->
  PrimFloat.ltb 0%float (normal_draw rng mu (PrimFloat.mul 0.0001%float mu) (k + i)) = true ->
  nth i energies 0%float = normal_draw rng mu (PrimFloat.mul 0.0001%float mu) (k + i).
Proof.
  intros Hmu Hrun Hi Hpos. unfold distributeEnergies, np_random_normal_array in Hrun.
  rewrite Hmu in Hrun.
  destruct (PrimFloat.ltb (PrimFloat.mul 0.0001 mu) F.zero); [discriminate|].
  destruct (bunch_number self <? 0)%Z; [discriminate|]. cbn in Hrun.
  rewrite <- (nth_draws rng mu _ _ k i Hi) in Hpos |- *.
  exact (resample_loop_keeps_positive rng mu _ fuel _ _ _ _ i Hrun Hpos).
Qed.

(** The second of two draws is positive and is returned as drawn. *)
Lemma distributeEnergies_keeps_positive_witness :
  nth 1 [120000000%float; 120000000%float] 0%float =
  normal_draw Demo.rng_low_first 120e6%float (PrimFloat.mul 0.0001%float 120e6%float) 1.
Proof.
  apply (distributeEnergies_keeps_positive Demo.pair Demo.rng_low_first 120e6%float
           0 2 [120000000%float; 120000000%float] 3 1).
  - reflexivity.
  - vm_compute. reflexivity.
  - vm_compute. lia.
  - vm_compute. reflexivity.
Defined.

(** X10: when no draw is positive (a mean of zero, or one that is not a
    number), the resampling never ends for a bunch of one particle or
    more: however many times the loop may run, [distributeEnergies] neither
    returns nor raises. *)
Theorem distributeEnergies_runs_forever (self : Bunch) (rng : nat -> float) (mu : float)
    (k fuel : nat) :
  average_kinetic_energy self = Some mu ->
  (1 <= bunch_number self)%Z ->
  PrimFloat.ltb (PrimFloat.mul 0.0001%float mu) 0%float = false ->
  (forall j, PrimFloat.ltb 0%float
               (normal_draw rng mu (PrimFloat.mul 0.0001%float mu) j) = false) ->
  distributeEnergies self rng k fuel = OutOfFuel.
Proof.
  intros Hmu Hn Hsigma Hnone. unfold distributeEnergies, np_random_normal_array, F.zero.
  rewrite Hmu, Hsigma.
  assert (Hn' : (bunch_number self <? 0)%Z = false) by (apply Z.ltb_ge; lia).
  rewrite Hn'. cbn [mbind outcome_bind].
  apply resample_loop_no_positive; [exact Hsigma | exact Hnone | |].
  - destruct (Z.to_nat (bunch_number self)) as [|n] eqn:Hz; [lia|]. discriminate.
  - apply List.Forall_forall. intros e He.
    destruct (draws_inv _ _ _ _ _ _ He) as (j & _ & ->). apply Hnone.
Qed.

(** A mean of zero: every draw is zero. *)
Lemma distributeEnergies_runs_forever_witness :
  distributeEnergies (mkBunch Demo.ProtonBunch (Some 0%float) 3 0.01%float [] "protons")
                     Demo.rng_half 0 1000 = OutOfFuel.
Proof.
  apply (distributeEnergies_runs_forever _ Demo.rng_half 0%float 0 1000).
  - reflexivity.
  - cbn. lia.
  - reflexivity.
  - intros j. reflexivity.
Defined.

(** ** More on the simulation loop *)

Lemma deepcopy_shape (self copy : Bunch) (h h' : heap) :
  deepcopy self h = (copy, h') ->
  copy = set_bunch (bunch copy) self /\ length (bunch copy) = length (bunch self).
Proof.
  unfold deepcopy. intros Hrun.
  destruct (deepcopy_members (bunch self) [] h) as [[r memo'] h1] eqn:Hrec.
  inversion Hrun; subst. cbn [set_bunch bunch]. split; [reflexivity|].
  eapply deepcopy_members_length, Hrec.
Qed.

Section LoopMore.

Context `{ParticleOps} `{FieldOps}.
Variables (protons : Bunch) (field : EMField).

(** What one run of the body does to the bookkeeping. *)
Lemma loop_body_appends (s s' : Sim) :
  loop_body protons field s = Ret s' ->
  exists d,
    timeSeries s' = timeSeries s ++ [time_of s'] /\
    Data s' = Data s ++ [d] /\
    d = set_bunch (bunch d) protons /\
    length (bunch d) = length (bunch protons) /\
    (time_of s' = PrimFloat.add (time_of s) deltaT0 \/
     time_of s' = PrimFloat.add (time_of s) (PrimFloat.mul deltaT0 0.01%float)).
Proof.
  intros Hrun. unfold loop_body in Hrun.
  destruct (getAcceleration _ _ _ _) as [e|ps]; [discriminate|].
  destruct (raised _); [discriminate|].
  destruct (deepcopy protons _) as [temp_bunch h2] eqn:Hcopy.
  inversion Hrun; subst s'. clear Hrun. cbn [timeSeries time_of Data].
  destruct (deepcopy_shape _ _ _ _ Hcopy) as [Hshape Hlen].
  exists temp_bunch. repeat split; try assumption.
  unfold adaptiveStep. destruct (existsb _ _); [now right | now left].
Qed.

Lemma loop_body_on_record (s s' : Sim) :
  on_record s -> PrimFloat.leb (time_of s) duration = true ->
  loop_body protons field s = Ret s' -> on_record s'.
Proof.
  intros (Hlen & earlier & Hts & Hearlier) Hguard Hrun.
  destruct (loop_body_appends s s' Hrun) as (d & Hts' & Hdata' & _).
  split.
  - rewrite Hts', Hdata', !length_app. cbn [length]. lia.
  - exists (timeSeries s). split; [exact Hts'|]. rewrite Hts.
    apply Forall_app. split; [exact Hearlier|]. now apply Forall_singleton.
Qed.

Lemma iterations_on_record (n : nat) :
  forall s s', on_record s -> iterations n protons field s = Ret s' ->
               on_record s' /\ length (timeSeries s') <= length (timeSeries s) + n.
Proof.
  induction n as [|n IH]; intros s s' Hrec Hrun; cbn [iterations] in Hrun.
  - inversion Hrun; subst. split; [exact Hrec | lia].
  - destruct (PrimFloat.leb (time_of s) duration) eqn:Hguard.
    + destruct (loop_body protons field s) as [s1| |] eqn:Hbody; cbn in Hrun;
        try discriminate.
      destruct (IH s1 s' (loop_body_on_record s s1 Hrec Hguard Hbody) Hrun) as [Hrec' Hlen'].
      split; [exact Hrec'|].
      destruct (loop_body_appends s s1 Hbody) as (d & Hts1 & _).
      rewrite Hts1, length_app in Hlen'. cbn [length] in Hlen'. lia.
    + inversion Hrun; subst. split; [exact Hrec | lia].
Qed.

Lemma iterations_shape (n : nat) :
  forall s s',
    Forall (fun d => d = set_bunch (bunch d) protons /\
                     length (bunch d) = length (bunch protons)) (Data s) ->
    iterations n protons field s = Ret s' ->
    Forall (fun d => d = set_bunch (bunch d) protons /\
                     length (bunch d) = length (bunch protons)) (Data s').
Proof.
  induction n as [|n IH]; intros s s' Hshape Hrun; cbn [iterations] in Hrun.
  - now inversion Hrun; subst.
  - destruct (PrimFloat.leb (time_of s) duration).
    + destruct (loop_body protons field s) as [s1| |] eqn:Hbody; cbn in Hrun;
        try discriminate.
      apply (IH s1 s'); [|exact Hrun].
      destruct (loop_body_appends s s1 Hbody) as (d & _ & Hdata & Hd & Hlen & _).
      rewrite Hdata. apply Forall_app. split; [exact Hshape|].
      apply Forall_singleton. now split.
    + now inversion Hrun; subst.
Qed.

End LoopMore.

Lemma initial_on_record (protons : Bunch) (h : heap) : on_record (initial protons h).
Proof.
  unfold initial. destruct (deepcopy protons h) as [inital_bunch h'].
  split; [reflexivity|]. exists []. split; [reflexivity | constructor].
Qed.

(** X11: the script records one snapshot per time.  After any number of
    iterations from its initial state, [Data] and [timeSeries] have the
    same length, at most one more than the number of iterations, the
    current time is the last one recorded, and every time recorded before
    it was within the duration. *)
Theorem loop_keeps_record `{ParticleOps} `{FieldOps} (protons : Bunch) (field : EMField)
    (h : heap) (n : nat) (s : Sim) :
  iterations n protons field (initial protons h) = Ret s ->
  length (Data s) = length (timeSeries s) /\
  length (timeSeries s) <= n + 1 /\
  exists earlier,
    timeSeries s = earlier ++ [time_of s] /\
    Forall (fun t => PrimFloat.leb t duration = true) earlier.
Proof.
  intros Hrun.
  destruct (iterations_on_record protons field n (initial protons h) s
              (initial_on_record protons h) Hrun)
    as [[Hlen Hrec] Hbound].
  split; [exact Hlen|]. split; [|exact Hrec].
  unfold initial in Hbound. destruct (deepcopy protons h). cbn [timeSeries length] in Hbound.
  lia.
Qed.

Lemma loop_keeps_record_witness :
  exists s,
    @iterations Demo.particle_ops Demo.field_ops 2 Demo.pair Demo.field
                (initial Demo.pair Demo.h_near) = Ret s /\
    length (Data s) = length (timeSeries s) /\ length (timeSeries s) <= 3.
Proof.
  eexists. split; [vm_compute; reflexivity|].
  destruct (@loop_keeps_record Demo.particle_ops Demo.field_ops Demo.pair Demo.field
              Demo.h_near 2 _ ltac:(vm_compute; reflexivity)) as (Hlen & Hbound & _).
  split; [exact Hlen | exact Hbound].
Defined.

(** X12: when the loop of the script ends, the condition [time <=
    duration] is false of the last time recorded and was true of every
    time recorded before it: the run overshoots the duration by one step,
    and the bookkeeping still pairs the snapshots with the times. *)
Theorem simulation_exit `{ParticleOps} `{FieldOps} (protons : Bunch) (field : EMField)
    (fuel : nat) (s0 s : Sim) :
  on_record s0 ->
  simulation fuel protons field s0 = Ret s ->
  PrimFloat.leb (time_of s) duration = false /\
  length (Data s) = length (timeSeries s) /\
  exists earlier,
    timeSeries s = earlier ++ [time_of s] /\
    Forall (fun t => PrimFloat.leb t duration = true) earlier.
Proof.
  intros Hrec Hrun.
  destruct (simulation_iterations fuel protons field s0 s Hrun) as [Hiter Hguard].
  destruct (iterations_on_record protons field fuel s0 s Hrec Hiter) as [[Hlen Hrec'] _].
  split; [exact Hguard|]. split; [exact Hlen | exact Hrec'].
Qed.

(** The last step of a run: from [2.379995e-6] s the loop runs once more
    and ends above the duration of [2.38e-6] s. *)
Lemma simulation_exit_witness :
  exists s,
    @simulation Demo.particle_ops Demo.field_ops 5 Demo.nobody Demo.field Demo.late = Ret s /\
    length (timeSeries s) = 3 /\
    PrimFloat.leb (time_of s) duration = false.
Proof.
  eexists. split; [vm_compute; reflexivity|]. split; [reflexivity|].
  refine (proj1 (@simulation_exit Demo.particle_ops Demo.field_ops Demo.nobody Demo.field
                   5 Demo.late _ _ ltac:(vm_compute; reflexivity))).
  split; [reflexivity|]. exists [0%float]. split; [reflexivity|].
  repeat constructor.
Defined.

(** X13: every snapshot is the live bunch but for its members: it has
    the attributes of the live bunch and as many members. *)
Theorem snapshots_have_the_shape_of_the_bunch `{ParticleOps} `{FieldOps} (protons : Bunch)
    (field : EMField) (h : heap) (n : nat) (s : Sim) :
  iterations n protons field (initial protons h) = Ret s ->
  Forall (fun d => d = set_bunch (bunch d) protons /\
                   length (bunch d) = length (bunch protons)) (Data s).
Proof.
  intros Hrun. apply (iterations_shape protons field n (initial protons h) s); [|exact Hrun].
  unfold initial. destruct (deepcopy protons h) as [inital_bunch h'] eqn:Hcopy.
  cbn [Data]. apply Forall_singleton. eapply deepcopy_shape, Hcopy.
Qed.

Lemma snapshots_have_the_shape_of_the_bunch_witness :
  exists s,
    @iterations Demo.particle_ops Demo.field_ops 2 Demo.pair Demo.field
                (initial Demo.pair Demo.h_near) = Ret s /\
    Forall (fun d => d = set_bunch (bunch d) Demo.pair /\ length (bunch d) = 2) (Data s).
Proof.
  eexists. split; [vm_compute; reflexivity|].
  exact (@snapshots_have_the_shape_of_the_bunch Demo.particle_ops Demo.field_ops
           Demo.pair Demo.field Demo.h_near 2 _ ltac:(vm_compute; reflexivity)).
Defined.

Section LoopTimes.

Context `{ParticleOps} `{FieldOps}.
Variables (protons : Bunch) (field : EMField).

Lemma stepwise_snoc (times : list float) (t t' : float) :
  stepwise (times ++ [t]) ->
  t' = PrimFloat.add t deltaT0 \/ t' = PrimFloat.add t (PrimFloat.mul deltaT0 0.01%float) ->
  stepwise ((times ++ [t]) ++ [t']).
Proof.
  intros Hsteps Hnew i a b Ha Hb.
  destruct (decide (S i < length (times ++ [t]))) as [Hi|Hi].
  - rewrite lookup_app_l in Ha, Hb by lia. exact (Hsteps i a b Ha Hb).
  - assert (Hlen : length (times ++ [t]) = S (length times))
      by (rewrite length_app; cbn; lia).
    assert (Hbound : S i < length ((times ++ [t]) ++ [t'])) by (eapply lookup_lt_Some, Hb).
    rewrite length_app in Hbound. cbn [length] in Hbound.
    assert (Hi' : i = length times) by lia. subst i.
    rewrite lookup_app_l in Ha by lia.
    rewrite lookup_app_r, Nat.sub_diag in Ha by lia. cbn in Ha. inversion Ha; subst a.
    rewrite lookup_app_r in Hb by lia.
    replace (S (length times) - length (times ++ [t])) with 0 in Hb by lia.
    cbn in Hb. inversion Hb; subst b. exact Hnew.
Qed.

Lemma iterations_stepwise (n : nat) :
  forall s s',
    (exists earlier, timeSeries s = earlier ++ [time_of s]) ->
    stepwise (timeSeries s) ->
    iterations n protons field s = Ret s' ->
    stepwise (timeSeries s').
Proof.
  induction n as [|n IH]; intros s s' Hlast Hsteps Hrun; cbn [iterations] in Hrun.
  - now inversion Hrun; subst.
  - destruct (PrimFloat.leb (time_of s) duration).
    + destruct (loop_body protons field s) as [s1| |] eqn:Hbody; cbn in Hrun;
        try discriminate.
      destruct (loop_body_appends protons field s s1 Hbody) as (d & Hts & _ & _ & _ & Hdt).
      apply (IH s1 s'); [now exists (timeSeries s) | | exact Hrun].
      rewrite Hts. destruct Hlast as [earlier Hearlier]. rewrite Hearlier in Hsteps |- *.
      now apply stepwise_snoc.
    + now inversion Hrun; subst.
Qed.

End LoopTimes.

(** X14: the recorded times advance by the adaptive step: each time in
    [timeSeries] is the floating-point sum of the time before it and
    either [deltaT] or [deltaT * 0.01]. *)
Theorem times_advance_by_the_adaptive_step `{ParticleOps} `{FieldOps} (protons : Bunch)
    (field : EMField) (h : heap) (n : nat) (s : Sim) :
  iterations n protons field (initial protons h) = Ret s ->
  forall i t t', timeSeries s !! i = Some t -> timeSeries s !! S i = Some t' ->
    t' = PrimFloat.add t deltaT0 \/
    t' = PrimFloat.add t (PrimFloat.mul deltaT0 0.01%float).
Proof.
  intros Hrun.
  apply (iterations_stepwise protons field n (initial protons h) s); [| |exact Hrun].
  - unfold initial. destruct (deepcopy protons h). now exists [].
  - unfold initial. destruct (deepcopy protons h). cbn [timeSeries].
    intros i t t' _ Ht'. destruct i; discriminate.
Qed.

(** With a proton inside the field the first step is a hundredth of
    [deltaT]. *)
Lemma times_advance_by_the_adaptive_step_witness :
  exists s,
    @iterations Demo.particle_ops Demo.field_ops 2 Demo.pair Demo.field
                (initial Demo.pair Demo.h_near) = Ret s /\
    timeSeries s !! 1 = Some (PrimFloat.add 0%float (PrimFloat.mul deltaT0 0.01%float)).
Proof.
  eexists. split; [vm_compute; reflexivity|].
  destruct (@times_advance_by_the_adaptive_step Demo.particle_ops Demo.field_ops Demo.pair
              Demo.field Demo.h_near 2 _ ltac:(vm_compute; reflexivity) 0 0%float
              (PrimFloat.add 0%float (PrimFloat.mul deltaT0 0.01%float)) eq_refl eq_refl)
    as [Hfull | Hshort].
  - vm_compute. reflexivity.
  - vm_compute. reflexivity.
Defined.

(** ** Bunches without members, and bunches in a plane *)

(** X15: a bunch without members has no average position or velocity:
    each is a NaN of no dimension, not a vector; [gamma] returns NaN
    without raising, and the adaptive step of such a bunch is the step it
    is given. *)
Theorem statistics_of_no_member (h : heap) (self : Bunch) (deltaT : float)
    (field : EMField) :
  bunch self = [] ->
  averageVelocity h self = Array0 nan /\
  averagePosition h self = Array0 nan /\
  gamma h self = Ret nan /\
  adaptiveStep h self deltaT field = deltaT.
Proof.
  intros Hnone. unfold gamma, averageVelocity, averagePosition, adaptiveStep, members.
  rewrite Hnone. repeat split; reflexivity.
Qed.

Lemma statistics_of_no_member_witness :
  averageVelocity [] Demo.nobody = Array0 nan /\
  gamma [] Demo.nobody = Ret nan /\
  adaptiveStep [] Demo.nobody deltaT0 Demo.field = deltaT0.
Proof.
  destruct (statistics_of_no_member [] Demo.nobody deltaT0 Demo.field eq_refl)
    as (Hmean & _ & Hgamma & Hstep).
  split; [exact Hmean|]. split; [exact Hgamma | exact Hstep].
Defined.

Lemma div_zero_positive (x : float) :
  PrimFloat.ltb 0%float x = true -> PrimFloat.div 0%float x = 0%float.
Proof.
  intros Hpos. apply Prim2SF_inj. rewrite FloatAxioms.div_spec, Prim2SF_zero.
  rewrite FloatAxioms.ltb_spec, Prim2SF_zero in Hpos. unfold SFltb in Hpos.
  destruct (Prim2SF x) as [s|s| |s m e]; cbn in Hpos |- *; try discriminate;
    destruct s; try discriminate; reflexivity.
Qed.

Lemma vz_fold_vadd (rows : list vec3) (v : vec3) :
  vz v = 0%float -> Forall (fun w => vz w = 0%float) rows ->
  vz (fold_left vadd rows v) = 0%float.
Proof.
  revert v. induction rows as [|w rows IH]; intros v Hv Hrows; cbn [fold_left];
    [exact Hv|].
  apply Forall_cons in Hrows. destruct Hrows as [Hw Hrows]. apply IH; [|exact Hrows].
  unfold vadd, vz in *. cbn [snd]. cbv beta in Hw. now rewrite Hv, Hw.
Qed.

(** X16: a bunch in the plane stays in the plane on average: when the
    third coordinate of every member's position is [0], as
    [assignPositions] makes it, and the bunch has members (a number of them
    that is positive as a float), [averagePosition] is a vector whose third
    coordinate is exactly [0]. *)
Theorem averagePosition_in_plane (h : heap) (self : Bunch) :
  Forall (fun p => vz (position p) = 0%float) (members h self) ->
  PrimFloat.ltb 0%float (F.of_nat (length (bunch self))) = true ->
  bunch self <> [] ->
  exists v, averagePosition h self = Array3 v /\ vz v = 0%float.
Proof.
  intros Hplane Hcount Hsome. unfold averagePosition, np_mean_axis0.
  destruct (map position (members h self)) as [|v rows] eqn:Hrows.
  - unfold members in Hrows. destruct (bunch self); [congruence | discriminate].
  - assert (Hlen : length (v :: rows) = length (bunch self)).
    { rewrite <- Hrows. unfold members. now rewrite !length_map. }
    rewrite Hlen. eexists. split; [reflexivity|]. unfold vdiv, vz at 1. cbn [snd].
    assert (Hall : Forall (fun w => vz w = 0%float) (v :: rows)).
    { rewrite <- Hrows. apply List.Forall_forall. intros w Hw.
      apply in_map_iff in Hw. destruct Hw as (p & <- & Hp).
      rewrite List.Forall_forall in Hplane. exact (Hplane p Hp). }
    apply Forall_cons in Hall. destruct Hall as [Hv Hall].
    rewrite (vz_fold_vadd rows v Hv Hall). now apply div_zero_positive.
Qed.

Lemma averagePosition_in_plane_witness :
  exists v, averagePosition Demo.h_near Demo.pair = Array3 v /\ vz v = 0%float.
Proof.
  apply averagePosition_in_plane.
  - repeat constructor.
  - vm_compute. reflexivity.
  - discriminate.
Defined.

(** ** The kinetic energy of a bunch without members *)

(** X17: for a bunch without members the average kinetic energy raises
    the error of [statistics.mean], while the total kinetic energy is
    [0.0]. *)
Theorem KineticEnergy_of_no_member `{ParticleEnergy} `{PythonNumerics} (h : heap)
    (self : Bunch) :
  bunch self = [] ->
  KineticEnergy h self false = Raise (ValueError "mean requires at least one data point") /\
  KineticEnergy h self true = Ret 0%float.
Proof.
  intros Hnone. unfold KineticEnergy, members. rewrite Hnone. split; reflexivity.
Qed.

Lemma KineticEnergy_of_no_member_witness :
  @KineticEnergy Demo.energy_ops Demo.numerics [] Demo.nobody false =
    Raise (ValueError "mean requires at least one data point") /\
  @KineticEnergy Demo.energy_ops Demo.numerics [] Demo.nobody true = Ret 0%float.
Proof.
  exact (@KineticEnergy_of_no_member Demo.energy_ops Demo.numerics [] Demo.nobody eq_refl).
Defined.
